(** * Randomized measurement: circuit generation and outcome analysis

    A shallow embedding of the two classes of the notebook
    [qiskit_experiments_tutorial_part2.ipynb]:

    - [RandomizedMeasurement] (the experiment: [__init__], [circuits]);
    - [RandomizedMeasurementAnalysis] ([_run_analysis], [_swap_bitstring]).

    Python values are modelled as the code uses them: [str] as [string],
    [int] as [Z], a [list] indexed by an [int] with Python's negative
    indices and its [IndexError], a [dict] keyed by strings as a [gmap],
    and the [counts] dictionary, whose iteration order the code observes
    through [next(iter(counts))], as the list of its items in that order.
    A raised exception is the left injection of a sum.

    The experiment calls into numpy and into the circuit library.  The
    random generator is a parameter of the development ([Library]); a
    circuit is the record of the calls made to build it, and the checks
    the circuit library makes on the arguments of those calls are not
    part of the notebook and are not modelled. *)

From stdpp Require Import gmap strings list fin_maps.
From Stdlib Require Import ZArith Ascii.

Open Scope Z_scope.

(** ** The Python fragment used by the source *)

Module Py.

(** The built-in exceptions the analysis can raise. *)
Inductive exn : Type :=
| StopIteration
| KeyError (key : string)
| IndexError.

#[global] Instance exn_eq_dec : EqDecision exn.
Proof. solve_decision. Defined.

(** A computation that returns a value or raises. *)
Definition result (A : Type) : Type := exn + A.

Definition bind {A B} (m : result A) (k : A → result B) : result B :=
  match m with
  | inl e => inl e
  | inr a => k a
  end.

Definition raises {A} (m : result A) : Prop := ∃ e, m = inl e.

(** Position denoted by the index [i] in a sequence of length [n]:
    [0 ≤ i < n] counts from the front, [-n ≤ i < 0] from the back. *)
Definition position (n : nat) (i : Z) : option nat :=
  if decide (0 ≤ i < Z.of_nat n) then Some (Z.to_nat i)
  else if decide (- Z.of_nat n ≤ i < 0) then Some (Z.to_nat (Z.of_nat n + i))
  else None.

(** [l[i]] *)
Definition getitem {A} (l : list A) (i : Z) : result A :=
  match position (length l) i with
  | Some n => match l !! n with Some x => inr x | None => inl IndexError end
  | None => inl IndexError
  end.

(** [l[i] = x] *)
Definition setitem {A} (l : list A) (i : Z) (x : A) : result (list A) :=
  match position (length l) i with
  | Some n => inr (<[n:=x]> l)
  | None => inl IndexError
  end.

(** [d[k]] on a dictionary with string keys. *)
Definition dict_getitem {A} (d : gmap string A) (k : string) : result A :=
  match d !! k with
  | Some v => inr v
  | None => inl (KeyError k)
  end.

(** [next(iter(d))] on the items of a dictionary. *)
Definition first_key {A} (items : list (string * A)) : result string :=
  match items with
  | [] => inl StopIteration
  | (k, _) :: _ => inr k
  end.

(** Truth value of an [int]. *)
Definition truthy (z : Z) : bool := negb (z =? 0).

End Py.

Notation "x <- m ;; k" := (Py.bind m (fun x => k))
  (at level 100, m at next level, right associativity, only parsing).

(** ** RandomizedMeasurementAnalysis *)

(** One entry of [experiment_data.data()]: the counts of one circuit, as
    the items of the dictionary in iteration order, and the metadata the
    circuit was tagged with.  The analysis reads the two keys ["rm_bits"]
    and ["rm_sig"], both lists of integers. *)
Record datum : Type := Datum {
  counts : list (string * Z);
  metadata : gmap string (list Z)
}.

Module RandomizedMeasurementAnalysis.

(** [_swap_bit = {"0": "1", "1": "0"}], looked up with one character. *)
Definition _swap_bit (b : ascii) : Py.result ascii :=
  if decide (b = "0"%char) then inr "1"%char
  else if decide (b = "1"%char) then inr "0"%char
  else inl (Py.KeyError (String b EmptyString)).

(** The list comprehension of [_swap_bitstring]:
    [[cls._swap_bit[b] if sig[-1 - i] else b for i, b in enumerate(bitstring)]],
    evaluated left to right from index [i]. *)
Fixpoint swap_chars (i : nat) (bitstring : list ascii) (sig : list Z)
  : Py.result (list ascii) :=
  match bitstring with
  | [] => inr []
  | b :: rest =>
      s <- Py.getitem sig (- 1 - Z.of_nat i) ;;
      c <- (if Py.truthy s then _swap_bit b else inr b) ;;
      cs <- swap_chars (S i) rest sig ;;
      inr (c :: cs)
  end.

(** [_swap_bitstring(bitstring, sig)]: the comprehension, reversed and
    joined. *)
Definition _swap_bitstring (bitstring : string) (sig : list Z)
  : Py.result string :=
  cs <- swap_chars 0 (String.list_ascii_of_string bitstring) sig ;;
  inr (String.string_of_list_ascii (reverse cs)).

(** [for bit, val in zip(clbits, sig): full_sig[bit] = val] *)
Fixpoint fill_sig (full_sig : list Z) (pairs : list (Z * Z))
  : Py.result (list Z) :=
  match pairs with
  | [] => inr full_sig
  | (bit, val) :: rest =>
      full_sig' <- Py.setitem full_sig bit val ;;
      fill_sig full_sig' rest
  end.

(** The body of the inner loop: add [val] to the entry of [bitstring],
    creating it when absent. *)
Definition accumulate (combined_counts : gmap string Z)
    (bitstring : string) (val : Z) : gmap string Z :=
  match combined_counts !! bitstring with
  | Some old => <[bitstring := old + val]> combined_counts
  | None => <[bitstring := val]> combined_counts
  end.

(** [for key, val in counts.items(): ...] *)
Fixpoint fold_counts (items : list (string * Z)) (full_sig : list Z)
    (combined_counts : gmap string Z) : Py.result (gmap string Z) :=
  match items with
  | [] => inr combined_counts
  | (key, val) :: rest =>
      bitstring <- _swap_bitstring key full_sig ;;
      fold_counts rest full_sig (accumulate combined_counts bitstring val)
  end.

(** The body of the outer loop, for one datum. *)
Definition fold_datum (d : datum) (combined_counts : gmap string Z)
  : Py.result (gmap string Z) :=
  first <- Py.first_key (counts d) ;;
  let num_bits := String.length first in
  clbits <- Py.dict_getitem (metadata d) "rm_bits" ;;
  sig <- Py.dict_getitem (metadata d) "rm_sig" ;;
  full_sig <- fill_sig (replicate num_bits 0) (zip clbits sig) ;;
  fold_counts (counts d) full_sig combined_counts.

(** [for datum in experiment_data.data(): ...] *)
Fixpoint fold_data (data : list datum) (combined_counts : gmap string Z)
  : Py.result (gmap string Z) :=
  match data with
  | [] => inr combined_counts
  | d :: rest =>
      combined_counts' <- fold_datum d combined_counts ;;
      fold_data rest combined_counts'
  end.

(** [_run_analysis]: the value of the single result ["counts"] it
    returns, or the exception that escapes. *)
Definition _run_analysis (data : list datum) : Py.result (gmap string Z) :=
  fold_data data ∅.

End RandomizedMeasurementAnalysis.

(** ** RandomizedMeasurement *)

(** A Pauli operator in symplectic form: one [z] and one [x] entry per
    qubit.  The operator flips qubit [i] exactly when [x] holds at [i]. *)
Record Pauli : Type := MkPauli {
  pauli_z : list bool;
  pauli_x : list bool
}.

(** What the experiment takes from its environment: numpy's bit
    generator ([default_rng] of an integer seed, the generator's state
    and one draw of [integers(2)]), the operating system's entropy that
    [default_rng(None)] reads, and the label [str(pauli)]. *)
Class Library : Type := {
  bitgen : Type;
  default_rng : Z → bitgen;
  next_bit : bitgen → bool * bitgen;
  os_entropy : nat → Z;
  pauli_str : Pauli → string
}.

(** The circuit handed to the experiment, with the attributes the
    experiment reads. *)
Record Circuit : Type := MkCircuit {
  name : string;
  num_qubits : nat;
  num_clbits : nat;
  circuit_metadata : option (gmap string (list Z))
}.

(** A circuit built by [circuits], as the calls made on it after
    [QuantumCircuit(num_qubits, num_clbits, name=name)]. *)
Inductive call : Type :=
| compose_circuit (other : Circuit) (qubits clbits : list Z)
| compose_pauli (other : Pauli) (qubits : list Z)
| measure (qubits clbits : list Z).

Record QuantumCircuit : Type := MkQuantumCircuit {
  qc_num_qubits : nat;
  qc_num_clbits : nat;
  qc_name : string;
  qc_calls : list call;
  qc_metadata : gmap string (list Z)
}.

(** The value of the [seed] option: [None], an [int], or a numpy
    [Generator] object, which the experiment shares with its caller. *)
Inductive seed_option : Type :=
| seed_None
| seed_int (n : Z)
| seed_Generator.

(** [list(range(a, b))] *)
Definition range (a b : nat) : list Z := Z.of_nat <$> seq a (b - a).

Module RandomizedMeasurement.

(** The experiment object: the physical qubits kept by the base class,
    the two attributes set by [__init__] and the two experiment
    options.  A sample count is a natural number or [None]. *)
Record t : Type := Mk {
  physical_qubits : list Z;
  _circuit : Circuit;
  _measured_qubits : list Z;
  num_samples : option nat;
  seed : seed_option
}.

(** [BaseExperiment.num_qubits]: the number of physical qubits. *)
Definition exp_num_qubits (self : t) : nat := length (physical_qubits self).

(** [__init__(circuit, measured_qubits=None, physical_qubits=None,
    backend=None, num_samples=10, seed=None)].  An argument the caller
    leaves out is [None] here; [num_samples] can also be passed as
    Python's [None], which is [Some None]. *)
Definition __init__ (circuit : Circuit)
    (measured_qubits physical_qubits : option (list Z))
    (num_samples : option (option nat)) (seed : option seed_option) : t :=
  let physical_qubits :=
    default (range 0 (num_qubits circuit)) physical_qubits in
  let measured_qubits :=
    default (range 0 (num_qubits circuit)) measured_qubits in
  {| physical_qubits := physical_qubits;
     _circuit := circuit;
     _measured_qubits := measured_qubits;
     num_samples := default (Some 10%nat) num_samples;
     seed := default seed_None seed |}.

Section Circuits.
Context `{Library}.

(** The mutable state outside the experiment: the state of the
    caller's [Generator] object (read when the seed option holds
    one) and how much entropy has been taken from the system. *)
Record world : Type := MkWorld {
  generator : bitgen;
  entropy_used : nat
}.

(** [rng.integers(2, size=n)] *)
Fixpoint integers (n : nat) (rng : bitgen) : list bool * bitgen :=
  match n with
  | O => ([], rng)
  | S n' =>
      let '(b, rng1) := next_bit rng in
      let '(bs, rng2) := integers n' rng1 in
      (b :: bs, rng2)
  end.

(** [rng.integers(2, size=(rows, cols))], filled row by row. *)
Fixpoint integers2 (rows cols : nat) (rng : bitgen)
  : list (list bool) * bitgen :=
  match rows with
  | O => ([], rng)
  | S rows' =>
      let '(r, rng1) := integers cols rng in
      let '(rs, rng2) := integers2 rows' cols rng1 in
      (r :: rs, rng2)
  end.

(** [random_pauli_list(num_qubits, size=size, phase=False, seed=rng)]:
    the [z] matrix is drawn first, then the [x] matrix. *)
Definition random_pauli_list (num_qubits size : nat) (rng : bitgen)
  : list Pauli * bitgen :=
  let '(z, rng1) := integers2 size num_qubits rng in
  let '(x, rng2) := integers2 size num_qubits rng1 in
  (zip_with MkPauli z x, rng2).

(** [pauli.x.astype(int).tolist()] *)
Definition x_as_ints (pauli : Pauli) : list Z :=
  (λ b : bool, if b then 1 else 0) <$> pauli_x pauli.

(** The body of the loop over [paulis]. *)
Definition build (self : t) (circ_qubits circ_clbits meas_clbits : list Z)
    (orig_metadata : gmap string (list Z)) (pauli : Pauli)
  : QuantumCircuit :=
  let circ_nc := num_clbits (_circuit self) in
  let meas_nc := length (_measured_qubits self) in
  {| qc_num_qubits := exp_num_qubits self;
     qc_num_clbits := (circ_nc + meas_nc)%nat;
     qc_name := name (_circuit self) +:+ "_" +:+ pauli_str pauli;
     qc_calls :=
       [ compose_circuit (_circuit self) circ_qubits circ_clbits;
         compose_pauli pauli (_measured_qubits self);
         measure (_measured_qubits self) meas_clbits ];
     qc_metadata :=
       <["rm_sig" := x_as_ints pauli]>
         (<["rm_bits" := meas_clbits]> orig_metadata) |}.

(** [circuits()], run in a world [w]: the list of circuits and the
    world afterwards.  The statement [return circuits] is read at the
    level of the method body, which it closes. *)
Definition circuits (self : t) (w : world) : list QuantumCircuit * world :=
  let circ_nc := num_clbits (_circuit self) in
  let meas_nc := length (_measured_qubits self) in
  let circ_qubits := range 0 (exp_num_qubits self) in
  let circ_clbits := range 0 circ_nc in
  let meas_clbits := range circ_nc (circ_nc + meas_nc) in
  let num_samples :=
    match num_samples self with
    | None => (2 ^ exp_num_qubits self)%nat
    | Some n => n
    end in
  let orig_metadata := default ∅ (circuit_metadata (_circuit self)) in
  let body := build self circ_qubits circ_clbits meas_clbits orig_metadata in
  match seed self with
  | seed_Generator =>
      let '(paulis, rng') :=
        random_pauli_list meas_nc num_samples (generator w) in
      (body <$> paulis,
       {| generator := rng'; entropy_used := entropy_used w |})
  | seed_int n =>
      let '(paulis, _) :=
        random_pauli_list meas_nc num_samples (default_rng n) in
      (body <$> paulis, w)
  | seed_None =>
      let rng := default_rng (os_entropy (entropy_used w)) in
      let '(paulis, _) := random_pauli_list meas_nc num_samples rng in
      (body <$> paulis,
       {| generator := generator w; entropy_used := S (entropy_used w) |})
  end.

End Circuits.

End RandomizedMeasurement.

(** ** A library instance to run the experiment on

    A linear congruential generator stands for numpy's bit generator and
    the Pauli label is spelled out qubit by qubit, highest qubit first. *)
Module Lcg.

Definition step (s : Z) : Z := (s * 1103515245 + 12345) mod 2 ^ 31.

Definition pauli_char (zx : bool * bool) : ascii :=
  match zx with
  | (false, false) => "I"
  | (false, true) => "X"
  | (true, true) => "Y"
  | (true, false) => "Z"
  end%char.

Definition to_label (p : Pauli) : string :=
  String.string_of_list_ascii
    (reverse (pauli_char <$> zip (pauli_z p) (pauli_x p))).

#[global] Instance library : Library := {|
  bitgen := Z;
  default_rng := λ n, n mod 2 ^ 31;
  next_bit := λ s, (Z.testbit (step s) 16, step s);
  os_entropy := Z.of_nat;
  pauli_str := to_label
|}.

End Lcg.

Import RandomizedMeasurementAnalysis.
Import RandomizedMeasurement.

Definition mk_metadata (rm_bits rm_sig : list Z) : gmap string (list Z) :=
  <["rm_sig" := rm_sig]> (<["rm_bits" := rm_bits]> ∅).

(** ** Vocabulary of the statements *)

(** The element of the comprehension of [_swap_bitstring] for the
    character [c] under the signature entry [s]. *)
Definition flip_char (s : Z) (c : ascii) : Py.result ascii :=
  if Py.truthy s then _swap_bit c else inr c.

(** The number of samples [circuits] asks for. *)
Definition samples (self : t) : nat :=
  match num_samples self with
  | None => (2 ^ exp_num_qubits self)%nat
  | Some n => n
  end.

(** A string of the characters 0 and 1. *)
Definition is_bitstring (s : string) : Prop :=
  Forall (λ c : ascii, c = "0"%char ∨ c = "1"%char) (String.list_ascii_of_string s).

Definition bit_of_char (c : ascii) : bool := bool_decide (c = "1"%char).
Definition char_of_bit (b : bool) : ascii := if b then "1"%char else "0"%char.

Definition bits_of_string (s : string) : list bool :=
  bit_of_char <$> String.list_ascii_of_string s.
Definition string_of_bits (bs : list bool) : string :=
  String.string_of_list_ascii (char_of_bit <$> bs).

(** The string read from right to left. *)
Definition reverse_string (s : string) : string :=
  String.string_of_list_ascii (reverse (String.list_ascii_of_string s)).

(** Sum of the values of a histogram, as a dictionary and as items. *)
Definition total (m : gmap string Z) : Z := map_fold (λ _ v acc, v + acc) 0 m.
Definition total_items (items : list (string * Z)) : Z :=
  foldr (λ kv acc, kv.2 + acc) 0 items.
Definition total_data (data : list datum) : Z :=
  foldr (λ d acc, total_items (counts d) + acc) 0 data.

(** The items of a histogram with every key read from right to left. *)
Definition reversed_items (items : list (string * Z)) : list (string * Z) :=
  (λ kv, (reverse_string kv.1, kv.2)) <$> items.

(** The untwirled outcome as an exclusive-or: the key is read from right
    to left, so that classical bit 0 comes first, and bit [j] is combined
    with the entry for classical bit [j]: nothing for the [c] bits of the
    base circuit, then the signature. *)
Definition xor_untwirl (c : nat) (sig : list Z) (key : string) : string :=
  string_of_bits
    (zip_with xorb (reverse (bits_of_string key))
       (replicate c false ++ (Py.truthy <$> sig))).

(** The number of measured qubits recorded with a datum. *)
Definition measured_count (d : datum) : option nat :=
  length <$> metadata d !! "rm_bits".

(** A datum whose metadata lacks one of the two keys the analysis reads. *)
Definition lacks_metadata (d : datum) : Prop :=
  metadata d !! "rm_bits" = None ∨ metadata d !! "rm_sig" = None.

(** The key whose lookup fails first on such a datum. *)
Definition missing_key (d : datum) : string :=
  match metadata d !! "rm_bits" with
  | None => "rm_bits"
  | Some _ => "rm_sig"
  end.

(** ** Concrete inputs *)

(** Two measured qubits, no classical bit before them, flip on qubit 0. *)
Definition datum_flip_first : datum :=
  Datum [("10"%string, 5)] (mk_metadata [0; 1] [1; 0]).

(** The same outcome under a signature that flips nothing. *)
Definition datum_no_flip : datum :=
  Datum [("10"%string, 5)] (mk_metadata [0; 1] [0; 0]).

(** Two circuits' worth of data for two measured qubits. *)
Definition data_two_circuits : list datum :=
  [ Datum [("10"%string, 5); ("01"%string, 2)] (mk_metadata [0; 1] [1; 0]);
    Datum [("11"%string, 3); ("01"%string, 4)] (mk_metadata [0; 1] [1; 1]) ].

(** One measured qubit behind one classical bit of the base circuit. *)
Definition datum_one_of_two : datum :=
  Datum [("00"%string, 3)] (mk_metadata [1] [0]).

(** Data without the metadata of the experiment. *)
Definition datum_empty_untagged : datum := Datum [] ∅.
Definition datum_untagged : datum := Datum [("0"%string, 1)] ∅.
Definition datum_without_sig : datum :=
  Datum [("0"%string, 1)] {["rm_bits" := [0]]}.

(** A datum whose recorded position lies outside its one-character keys. *)
Definition datum_too_narrow : datum :=
  Datum [("0"%string, 1)] (mk_metadata [5] [1]).

(** Base circuits: one qubit and no classical bit; two qubits and one
    classical bit. *)
Definition circuit_one_qubit : Circuit := MkCircuit "qc" 1 0 None.
Definition circuit_two_qubits : Circuit := MkCircuit "ghz" 2 1 None.

Definition world0 : world := MkWorld 1 0.

(** Three samples on the two-qubit circuit, seeded with an integer and
    with the caller's generator. *)
Definition experiment_seed_7 : t :=
  __init__ circuit_two_qubits None None (Some (Some 3%nat)) (Some (seed_int 7)).
Definition experiment_shared_generator : t :=
  __init__ circuit_two_qubits None None (Some (Some 3%nat))
    (Some seed_Generator).

(** The first circuit [circuits] returns for the integer seed on the
    library instance [Lcg]. *)
Definition first_circuit_seed_7 : QuantumCircuit :=
  MkQuantumCircuit 2 3 "ghz_II"
    [ compose_circuit circuit_two_qubits [0; 1] [0];
      compose_pauli (MkPauli [false; false] [false; false]) [0; 1];
      measure [0; 1] [1; 2] ]
    (<["rm_sig" := [0; 0]]> (<["rm_bits" := [1; 2]]> ∅)).

(** The quantities [circuits] names, as functions of the experiment. *)
Definition circ_nc (self : t) : nat := num_clbits (_circuit self).
Definition meas_nc (self : t) : nat := length (_measured_qubits self).
Definition meas_clbits (self : t) : list Z :=
  range (circ_nc self) (circ_nc self + meas_nc self).

(** ** GHZExperiment *)

Module GHZExperiment.

(** The calls [circuits] makes on the circuit it builds. *)
Inductive gate : Type :=
| h (qubit : Z)
| cx (control target : Z)
| measure_all.

(** A circuit made by [QuantumCircuit(num_qubits)] and the calls made on
    it, in order. *)
Record circuit : Type := MkGhzCircuit {
  ghz_num_qubits : nat;
  ghz_calls : list gate
}.

(** The experiment: the physical qubits kept by the base class and the
    option [measure]. *)
Record t : Type := Mk {
  physical_qubits : list Z;
  measure : bool
}.

(** [__init__(physical_qubits, measure=True, backend=None)]; a [measure]
    the caller leaves out is [None] here. *)
Definition __init__ (physical_qubits : list Z) (measure : option bool) : t :=
  {| physical_qubits := physical_qubits; measure := default true measure |}.

(** [circuits()] *)
Definition circuits (self : t) : list circuit :=
  let num_qubits := length (physical_qubits self) in
  [ {| ghz_num_qubits := num_qubits;
       ghz_calls :=
         h 0 :: (cx 0 <$> range 1 num_qubits)
           ++ (if measure self then [measure_all] else []) |} ].

End GHZExperiment.

(** ** The analysis as a list of swapped items

    The loops of [_run_analysis] do two things at once: they swap keys and
    they add counts.  The definitions below take the first apart from the
    second, in the order of the source. *)

(** One step of the inner loop on an item whose key is already swapped. *)
Definition add_item (m : gmap string Z) (kv : string * Z) : gmap string Z :=
  accumulate m kv.1 kv.2.

(** The keys of the items swapped by [_swap_bitstring], in order. *)
Fixpoint swap_items (items : list (string * Z)) (full_sig : list Z)
  : Py.result (list (string * Z)) :=
  match items with
  | [] => inr []
  | (key, val) :: rest =>
      bitstring <- _swap_bitstring key full_sig ;;
      swapped_rest <- swap_items rest full_sig ;;
      inr ((bitstring, val) :: swapped_rest)
  end.

(** The swapped items of a datum: the outer loop body before any count is
    added. *)
Definition swapped (d : datum) : Py.result (list (string * Z)) :=
  first <- Py.first_key (counts d) ;;
  let num_bits := String.length first in
  clbits <- Py.dict_getitem (metadata d) "rm_bits" ;;
  sig <- Py.dict_getitem (metadata d) "rm_sig" ;;
  full_sig <- fill_sig (replicate num_bits 0) (zip clbits sig) ;;
  swap_items (counts d) full_sig.

Fixpoint swapped_all (data : list datum) : Py.result (list (string * Z)) :=
  match data with
  | [] => inr []
  | d :: rest =>
      items <- swapped d ;;
      items_rest <- swapped_all rest ;;
      inr (items ++ items_rest)
  end.

(** Two dictionaries of counts added key by key. *)
Definition merge (m1 m2 : gmap string Z) : gmap string Z :=
  union_with (λ a b, Some (a + b)) m1 m2.

(** The dictionary of counts of a list of items. *)
Definition histogram (items : list (string * Z)) : gmap string Z :=
  foldr (λ kv r, merge {[kv.1 := kv.2]} r) ∅ items.

(** All counts of the data are non-negative. *)
Definition nonneg_counts (data : list datum) : Prop :=
  Forall (λ d, Forall (λ kv : string * Z, 0 ≤ kv.2) (counts d)) data.

(** The state of a generator after [n] draws. *)
Definition draws `{Library} (n : nat) (rng : bitgen) : bitgen :=
  Nat.iter n (λ g, (next_bit g).2) rng.

(** A datum as the execution of a circuit returns it: the counts found,
    tagged with the metadata of the circuit. *)
Definition executed (circ : QuantumCircuit) (found : list (string * Z))
  : datum :=
  Datum found (qc_metadata circ).

(** Counts a backend can return for a circuit: at least one outcome, every
    key a bit string with one character per classical bit. *)
Definition outcome_of (circ : QuantumCircuit) (found : list (string * Z))
  : Prop :=
  found ≠ [] ∧
  Forall (λ kv, is_bitstring kv.1 ∧ String.length kv.1 = qc_num_clbits circ)
    found.

(** Data that come from running circuits of the experiment [self] made in
    the world [w]. *)
Definition data_of `{Library} (self : t) (w : world) (data : list datum)
  : Prop :=
  Forall (λ d, ∃ circ found,
            circ ∈ (circuits self w).1 ∧ outcome_of circ found ∧
            d = executed circ found) data.

(** ** Further quantities of the source and inputs *)

(** The value of [full_sig] the analysis uses for a datum: the signature
    spread over the recorded positions of a register as wide as the first
    key, or the exception met on the way. *)
Definition full_sig_of (d : datum) : Py.result (list Z) :=
  first <- Py.first_key (counts d) ;;
  let num_bits := String.length first in
  clbits <- Py.dict_getitem (metadata d) "rm_bits" ;;
  sig <- Py.dict_getitem (metadata d) "rm_sig" ;;
  fill_sig (replicate num_bits 0) (zip clbits sig).

(** The value of [rng] in [circuits]: the seed itself when it is a
    [Generator], [default_rng(seed)] otherwise. *)
Definition rng_of `{Library} (self : t) (w : world) : bitgen :=
  match seed self with
  | seed_Generator => generator w
  | seed_int n => default_rng n
  | seed_None => default_rng (os_entropy (entropy_used w))
  end.

(** The outcome as an exclusive-or with the [x] part of a Pauli: the key
    read with classical bit 0 first, the [c] bits of the base circuit
    kept and the measured bits combined with [x]. *)
Definition untwirl_by_x (c : nat) (x : list bool) (key : string) : string :=
  string_of_bits
    (zip_with xorb (reverse (bits_of_string key)) (replicate c false ++ x)).



(** Two measured qubits behind one classical bit of the base circuit,
    with a flip on the first of them. *)
Definition datum_two_of_three : datum :=
  Datum [("011"%string, 3)] (mk_metadata [1; 2] [1; 0]).

(** The world [world0] after entropy was read five times. *)
Definition world_later : world := MkWorld 1 5.

(** A base circuit that has metadata of its own, also under the two keys
    of the experiment, and an experiment on it that shares a generator. *)
Definition circuit_tagged : Circuit :=
  MkCircuit "base" 2 1
    (Some (<["shots" := [1024]]>
             (<["rm_sig" := [9]]> (<["rm_bits" := [7]]> ∅)))).
Definition experiment_tagged : t :=
  __init__ circuit_tagged None None (Some (Some 2%nat)) (Some seed_Generator).

(** The second circuit [circuits] returns for it on the library instance
    [Lcg]. *)
Definition second_circuit_tagged : QuantumCircuit :=
  MkQuantumCircuit 2 3 "base_YZ"
    [ compose_circuit circuit_tagged [0; 1] [0];
      compose_pauli (MkPauli [true; true] [false; true]) [0; 1];
      measure [0; 1] [1; 2] ]
    (<["rm_sig" := [0; 1]]>
       (<["rm_bits" := [1; 2]]>
          (<["shots" := [1024]]>
             (<["rm_sig" := [9]]> (<["rm_bits" := [7]]> ∅))))).

(** ** Facts about the Python fragment *)

Section PyFacts.

Lemma bind_inr {A B} (m : Py.result A) (k : A → Py.result B) (b : B) :
  Py.bind m k = inr b → ∃ a, m = inr a ∧ k a = inr b.
Proof. destruct m as [e|a]; simpl; [discriminate | eauto]. Qed.

Lemma position_back (n i : nat) :
  (i < n)%nat → Py.position n (- 1 - Z.of_nat i) = Some (n - 1 - i)%nat.
Proof.
  intros Hi. unfold Py.position.
  destruct (decide (0 ≤ - 1 - Z.of_nat i < Z.of_nat n)) as [?|_]; [lia|].
  destruct (decide (- Z.of_nat n ≤ - 1 - Z.of_nat i < 0)) as [_|?]; [|lia].
  f_equal. lia.
Qed.

Lemma position_back_None (n i : nat) :
  (n ≤ i)%nat → Py.position n (- 1 - Z.of_nat i) = None.
Proof.
  intros Hi. unfold Py.position.
  destruct (decide (0 ≤ - 1 - Z.of_nat i < Z.of_nat n)) as [?|_]; [lia|].
  destruct (decide (- Z.of_nat n ≤ - 1 - Z.of_nat i < 0)) as [?|_]; [lia|done].
Qed.

Lemma position_lt (n : nat) (i : Z) (p : nat) :
  Py.position n i = Some p → (p < n)%nat.
Proof.
  unfold Py.position. repeat case_decide; intros; simplify_eq; lia.
Qed.

Lemma position_front (n i : nat) :
  (i < n)%nat → Py.position n (Z.of_nat i) = Some i.
Proof.
  intros Hi. unfold Py.position.
  destruct (decide (0 ≤ Z.of_nat i < Z.of_nat n)) as [_|?]; [|lia].
  by rewrite Nat2Z.id.
Qed.

Lemma getitem_back {A} (l : list A) (i : nat) (x : A) :
  l !! (length l - 1 - i)%nat = Some x → (i < length l)%nat →
  Py.getitem l (- 1 - Z.of_nat i) = inr x.
Proof.
  intros Hx Hi. unfold Py.getitem. rewrite position_back by done. by rewrite Hx.
Qed.

Lemma getitem_back_inr {A} (l : list A) (i : nat) (x : A) :
  Py.getitem l (- 1 - Z.of_nat i) = inr x →
  (i < length l)%nat ∧ l !! (length l - 1 - i)%nat = Some x.
Proof.
  unfold Py.getitem. destruct (decide (i < length l)%nat) as [Hi|Hi].
  - rewrite position_back by done.
    destruct (l !! _) eqn:E; [|discriminate]. intros [= ->]. done.
  - rewrite position_back_None by lia. discriminate.
Qed.

End PyFacts.

(** ** Facts about the analysis *)

Section AnalysisFacts.

Lemma flip_char_bit (s : Z) (c : ascii) :
  c = "0"%char ∨ c = "1"%char →
  flip_char s c = inr (char_of_bit (xorb (bit_of_char c) (Py.truthy s))).
Proof.
  unfold flip_char. intros [-> | ->]; destruct (Py.truthy s); reflexivity.
Qed.

Lemma flip_char_zero (c : ascii) : flip_char 0 c = inr c.
Proof. reflexivity. Qed.

Lemma flip_char_inr_bit (s : Z) (c c' : ascii) :
  flip_char s c = inr c' →
  c = "0"%char ∨ c = "1"%char → c' = "0"%char ∨ c' = "1"%char.
Proof.
  intros Hf Hc. rewrite (flip_char_bit _ _ Hc) in Hf. injection Hf as <-.
  destruct (xorb _ _); simpl; auto.
Qed.

Lemma swap_chars_cons (i : nat) (b : ascii) (rest : list ascii) (sig : list Z) :
  swap_chars i (b :: rest) sig =
    (s <- Py.getitem sig (- 1 - Z.of_nat i) ;;
     c <- flip_char s b ;;
     cs <- swap_chars (S i) rest sig ;;
     inr (c :: cs)).
Proof. reflexivity. Qed.

(** On characters 0 and 1 and a long enough signature the comprehension
    pairs character [j] with the signature entry [j] places from the
    end. *)
Lemma swap_chars_xor (cs : list ascii) (sig : list Z) (i : nat) :
  Forall (λ c : ascii, c = "0"%char ∨ c = "1"%char) cs →
  (i + length cs ≤ length sig)%nat →
  swap_chars i cs sig =
    inr (zip_with (λ c s, char_of_bit (xorb (bit_of_char c) (Py.truthy s)))
           cs (drop i (reverse sig))).
Proof.
  intros Hcs. revert i. induction Hcs as [|c cs Hc _ IH]; intros i Hlen.
  - reflexivity.
  - simpl in Hlen. rewrite swap_chars_cons.
    assert (Hi : (i < length sig)%nat) by lia.
    destruct (lookup_lt_is_Some_2 (reverse sig) i) as [s Hs].
    { rewrite length_reverse. lia. }
    assert (Hs' : sig !! (length sig - 1 - i)%nat = Some s).
    { rewrite <- Hs, reverse_lookup by done. f_equal. lia. }
    rewrite (getitem_back sig i s Hs' Hi).
    simpl. rewrite (flip_char_bit _ _ Hc). simpl.
    rewrite IH by lia. simpl.
    by rewrite (drop_S _ _ _ Hs).
Qed.

(** With a signature of zeros nothing is swapped. *)
Lemma swap_chars_zeros (cs : list ascii) (sig : list Z) (i : nat) :
  Forall (λ s, s = 0) sig →
  (i + length cs ≤ length sig)%nat →
  swap_chars i cs sig = inr cs.
Proof.
  intros Hsig. revert i. induction cs as [|c cs IH]; intros i Hlen.
  - reflexivity.
  - simpl in Hlen. rewrite swap_chars_cons.
    destruct (lookup_lt_is_Some_2 sig (length sig - 1 - i)) as [s Hs]; [lia|].
    rewrite (getitem_back sig i s Hs) by lia. simpl.
    rewrite Forall_lookup in Hsig. rewrite (Hsig _ _ Hs), flip_char_zero. simpl.
    by rewrite IH by lia.
Qed.

(** Whatever the signature, a successful comprehension keeps the
    length and the alphabet. *)
Lemma swap_chars_inr (cs out : list ascii) (sig : list Z) (i : nat) :
  swap_chars i cs sig = inr out →
  length out = length cs ∧
  (Forall (λ c : ascii, c = "0"%char ∨ c = "1"%char) cs →
   Forall (λ c : ascii, c = "0"%char ∨ c = "1"%char) out).
Proof.
  revert i out. induction cs as [|c cs IH]; intros i out.
  - intros [= <-]. done.
  - rewrite swap_chars_cons. intros Hb.
    apply bind_inr in Hb as (s & _ & Hb).
    apply bind_inr in Hb as (c' & Hc' & Hb).
    apply bind_inr in Hb as (cs' & Hcs' & Hb).
    injection Hb as <-. destruct (IH _ _ Hcs') as [Hl Hbits].
    split; [simpl; by rewrite Hl|].
    intros Hall. apply Forall_cons in Hall as [Hc Hall].
    apply Forall_cons. split; [by eapply flip_char_inr_bit | by apply Hbits].
Qed.

Lemma reverse_zip_with {A B C} (f : A → B → C) (l : list A) (k : list B) :
  length l = length k →
  reverse (zip_with f l k) = zip_with f (reverse l) (reverse k).
Proof.
  revert k. induction l as [|x l IH]; intros [|y k] Hlen; try discriminate.
  - reflexivity.
  - simpl in *. rewrite !reverse_cons, IH by lia.
    rewrite zip_with_app by (rewrite !length_reverse; lia). reflexivity.
Qed.

Lemma length_list_ascii_of_string (s : string) :
  length (String.list_ascii_of_string s) = String.length s.
Proof. induction s as [|c s IH]; simpl; [done | by rewrite IH]. Qed.

Lemma reverse_string_inj (s1 s2 : string) :
  reverse_string s1 = reverse_string s2 → s1 = s2.
Proof.
  unfold reverse_string. intros Heq.
  apply (f_equal String.list_ascii_of_string) in Heq.
  rewrite !String.list_ascii_of_string_of_list_ascii in Heq.
  apply (inj reverse) in Heq.
  apply (f_equal String.string_of_list_ascii) in Heq.
  by rewrite !String.string_of_list_ascii_of_string in Heq.
Qed.

(** [_swap_bitstring] on a bit string and a signature of its length:
    the string is read from right to left and combined entry by entry
    with the signature. *)
Lemma swap_bitstring_xor (key : string) (sig : list Z) :
  is_bitstring key →
  length sig = String.length key →
  _swap_bitstring key sig =
    inr (string_of_bits
           (zip_with xorb (reverse (bits_of_string key)) (Py.truthy <$> sig))).
Proof.
  intros Hkey Hlen. unfold _swap_bitstring.
  rewrite swap_chars_xor; [|done|rewrite length_list_ascii_of_string; lia].
  simpl. f_equal. unfold string_of_bits, bits_of_string. f_equal.
  rewrite drop_0, reverse_zip_with.
  2:{ by rewrite length_reverse, length_list_ascii_of_string. }
  rewrite reverse_involutive, <- fmap_reverse.
  rewrite zip_with_fmap_l, zip_with_fmap_r.
  set (cs := reverse (String.list_ascii_of_string key)). clearbody cs.
  clear. revert sig. induction cs as [|c cs IH]; intros [|s sig]; simpl; try done.
  by rewrite IH.
Qed.

Lemma swap_bitstring_zeros (key : string) (sig : list Z) :
  Forall (λ s, s = 0) sig →
  (String.length key ≤ length sig)%nat →
  _swap_bitstring key sig = inr (reverse_string key).
Proof.
  intros Hsig Hlen. unfold _swap_bitstring.
  rewrite swap_chars_zeros; [done|done|].
  rewrite length_list_ascii_of_string. lia.
Qed.

Lemma length_string_of_list_ascii (l : list ascii) :
  String.length (String.string_of_list_ascii l) = length l.
Proof. induction l as [|c l IH]; simpl; [done | by rewrite IH]. Qed.

Lemma swap_bitstring_inr (key out : string) (sig : list Z) :
  _swap_bitstring key sig = inr out →
  String.length out = String.length key ∧ (is_bitstring key → is_bitstring out).
Proof.
  unfold _swap_bitstring. intros Hb.
  apply bind_inr in Hb as (cs & Hcs & Hb). injection Hb as <-.
  apply swap_chars_inr in Hcs as [Hl Hbits]. split.
  - by rewrite length_string_of_list_ascii, length_reverse, Hl,
      length_list_ascii_of_string.
  - unfold is_bitstring. intros Hkey.
    rewrite String.list_ascii_of_string_of_list_ascii.
    apply Forall_reverse. by apply Hbits.
Qed.

(** *** The signature spread over the register *)

Lemma range_cons (a n : nat) :
  range a (a + S n) = Z.of_nat a :: range (S a) (S a + n).
Proof.
  unfold range. replace (a + S n - a)%nat with (S n) by lia.
  replace (S a + n - S a)%nat with n by lia. reflexivity.
Qed.

Lemma range_nil (a : nat) : range a (a + 0) = [].
Proof. unfold range. by replace (a + 0 - a)%nat with O by lia. Qed.

Lemma length_range (a b : nat) : length (range a b) = (b - a)%nat.
Proof. unfold range. by rewrite length_fmap, length_seq. Qed.

Lemma lookup_range (a b i : nat) :
  (i < b - a)%nat → range a b !! i = Some (Z.of_nat (a + i)).
Proof.
  intros Hi. unfold range. rewrite list_lookup_fmap.
  by rewrite lookup_seq_lt.
Qed.

Lemma elem_of_range (a b : nat) (z : Z) :
  z ∈ range a b ↔ Z.of_nat a ≤ z < Z.of_nat b.
Proof.
  unfold range. rewrite list_elem_of_fmap. split.
  - intros (n & -> & Hn). apply elem_of_seq in Hn. lia.
  - intros Hz. exists (Z.to_nat z). split; [lia|].
    apply elem_of_seq. lia.
Qed.

(** Positions [length done ..] of a register that is still zero there
    receive the signature in order. *)
Lemma fill_sig_range (sig done : list Z) :
  fill_sig (done ++ replicate (length sig) 0)
    (zip (range (length done) (length done + length sig)) sig)
  = inr (done ++ sig).
Proof.
  revert done. induction sig as [|s sig IH]; intros done.
  - simpl. by rewrite range_nil.
  - simpl length. rewrite range_cons. simpl.
    unfold Py.setitem. rewrite position_front.
    2:{ rewrite length_app. simpl. lia. }
    simpl. rewrite insert_app_r_alt by lia.
    replace (length done - length done)%nat with O by lia. simpl.
    specialize (IH (done ++ [s])).
    rewrite length_app in IH. simpl in IH.
    replace (length done + 1)%nat with (S (length done)) in IH by lia.
    rewrite <- !(assoc_L (++)) in IH. exact IH.
Qed.

(** Writing zeros at valid positions leaves a register of zeros as it
    is. *)
Lemma fill_sig_zeros (n : nat) (pairs : list (Z * Z)) :
  Forall (λ p, is_Some (Py.position n p.1) ∧ p.2 = 0) pairs →
  fill_sig (replicate n 0) pairs = inr (replicate n 0).
Proof.
  induction 1 as [|[bit val] pairs [[p Hp] Hv] _ IH]; [done|].
  simpl in *. subst val. unfold Py.setitem.
  rewrite length_replicate, Hp. simpl.
  by rewrite insert_replicate.
Qed.

(** *** Totals *)

Lemma total_empty : total ∅ = 0.
Proof. unfold total. by rewrite map_fold_empty. Qed.

Lemma total_insert_fresh (m : gmap string Z) (k : string) (v : Z) :
  m !! k = None → total (<[k:=v]> m) = v + total m.
Proof.
  intros Hk. unfold total. rewrite map_fold_insert_L; [done| |done].
  intros. lia.
Qed.

Lemma total_lookup (m : gmap string Z) (k : string) (v : Z) :
  m !! k = Some v → total m = v + total (delete k m).
Proof.
  intros Hk. unfold total. rewrite (map_fold_delete_L _ _ k v m); [done| |done].
  intros. lia.
Qed.

Lemma total_accumulate (m : gmap string Z) (k : string) (v : Z) :
  total (accumulate m k v) = total m + v.
Proof.
  unfold accumulate. destruct (m !! k) as [old|] eqn:Hk.
  - rewrite <- insert_delete_eq, total_insert_fresh by apply lookup_delete_eq.
    rewrite (total_lookup m k old Hk). lia.
  - rewrite total_insert_fresh by done. lia.
Qed.

Lemma total_fold_counts (items : list (string * Z)) (full_sig : list Z)
    (m m' : gmap string Z) :
  fold_counts items full_sig m = inr m' →
  total m' = total m + total_items items.
Proof.
  revert m. induction items as [|[key val] items IH]; intros m; simpl.
  - intros [= <-]. lia.
  - intros Hb. apply bind_inr in Hb as (bitstring & _ & Hb).
    rewrite (IH _ Hb), total_accumulate. lia.
Qed.

Lemma fold_datum_inr (d : datum) (m m' : gmap string Z) :
  fold_datum d m = inr m' →
  ∃ full_sig, fold_counts (counts d) full_sig m = inr m'.
Proof.
  unfold fold_datum. intros Hb.
  apply bind_inr in Hb as (first & _ & Hb).
  apply bind_inr in Hb as (clbits & _ & Hb).
  apply bind_inr in Hb as (sig & _ & Hb).
  apply bind_inr in Hb as (full_sig & _ & Hb). eauto.
Qed.

Lemma total_fold_data (data : list datum) (m m' : gmap string Z) :
  fold_data data m = inr m' → total m' = total m + total_data data.
Proof.
  revert m. induction data as [|d data IH]; intros m; simpl.
  - intros [= <-]. lia.
  - intros Hb. apply bind_inr in Hb as (m1 & Hd & Hb).
    apply fold_datum_inr in Hd as [full_sig Hd].
    rewrite (IH _ Hb), (total_fold_counts _ _ _ _ Hd). lia.
Qed.

(** *** Where the keys of the result come from *)

Lemma lookup_accumulate (m : gmap string Z) (k k' : string) (v : Z) :
  is_Some (accumulate m k v !! k') → k' = k ∨ is_Some (m !! k').
Proof.
  unfold accumulate. destruct (decide (k' = k)) as [->|Hne]; [auto|].
  destruct (m !! k); rewrite lookup_insert_ne by done; auto.
Qed.

Lemma keys_fold_counts (items : list (string * Z)) (full_sig : list Z)
    (m m' : gmap string Z) (key : string) :
  fold_counts items full_sig m = inr m' →
  is_Some (m' !! key) →
  is_Some (m !! key) ∨
  ∃ key0 val, (key0, val) ∈ items ∧ _swap_bitstring key0 full_sig = inr key.
Proof.
  revert m. induction items as [|[key0 val] items IH]; intros m; simpl.
  - intros [= <-]. auto.
  - intros Hb Hkey. apply bind_inr in Hb as (bitstring & Hsw & Hb).
    destruct (IH _ Hb Hkey) as [Hin | (k0 & v & Hin & Hk0)].
    + apply lookup_accumulate in Hin as [-> | Hin]; [|auto].
      right. exists key0, val. split; [left | done].
    + right. exists k0, v. split; [by right | done].
Qed.

Lemma keys_fold_data (data : list datum) (m m' : gmap string Z) (key : string) :
  fold_data data m = inr m' →
  is_Some (m' !! key) →
  is_Some (m !! key) ∨
  ∃ d full_sig key0 val,
    d ∈ data ∧ (key0, val) ∈ counts d ∧
    _swap_bitstring key0 full_sig = inr key.
Proof.
  revert m. induction data as [|d data IH]; intros m; simpl.
  - intros [= <-]. auto.
  - intros Hb Hkey. apply bind_inr in Hb as (m1 & Hd & Hb).
    destruct (IH _ Hb Hkey) as [Hin | (d' & fs & k0 & v & Hd' & Hin & Hk0)].
    + apply fold_datum_inr in Hd as [full_sig Hd].
      destruct (keys_fold_counts _ _ _ _ _ Hd Hin) as [?|(k0 & v & ? & ?)];
        [auto|].
      right. exists d, full_sig, k0, v. split; [left | done].
    + right. exists d', fs, k0, v. split; [by right | done].
Qed.

(** *** A signature of zeros *)

Lemma accumulate_fresh (m : gmap string Z) (k : string) (v : Z) :
  m !! k = None → accumulate m k v = <[k:=v]> m.
Proof. unfold accumulate. by intros ->. Qed.

Lemma fold_counts_zeros (items : list (string * Z)) (full_sig : list Z)
    (m : gmap string Z) :
  Forall (λ s, s = 0) full_sig →
  Forall (λ kv, (String.length kv.1 ≤ length full_sig)%nat) items →
  NoDup items.*1 →
  (∀ k, k ∈ items.*1 → m !! reverse_string k = None) →
  fold_counts items full_sig m =
    inr (list_to_map (reversed_items items) ∪ m).
Proof.
  intros Hsig Hlen. revert m.
  induction Hlen as [|[k v] items Hk _ IH]; intros m Hnd Hfresh; simpl.
  - by rewrite (left_id_L ∅ (∪)).
  - simpl in *. apply NoDup_cons in Hnd as [Hk' Hnd].
    rewrite (swap_bitstring_zeros k full_sig Hsig Hk). simpl.
    rewrite accumulate_fresh by (apply Hfresh; left).
    rewrite IH; [|done|].
    + f_equal. rewrite <- insert_union_r, insert_union_l; [done|].
      apply not_elem_of_list_to_map_1. unfold reversed_items.
      rewrite <- list_fmap_compose. intros Hin.
      apply list_elem_of_fmap in Hin as ([k0 v0] & Heq & Hin). simpl in Heq.
      apply reverse_string_inj in Heq as <-.
      apply Hk'. apply list_elem_of_fmap. by exists (k, v0).
    + intros k0 Hk0. rewrite lookup_insert_ne; [apply Hfresh; by right|].
      intros Heq. apply reverse_string_inj in Heq as ->. done.
Qed.

(** *** A signature in the layout of the generator *)

Lemma swap_bitstring_layout (c : nat) (sig : list Z) (key : string) :
  is_bitstring key →
  String.length key = (c + length sig)%nat →
  _swap_bitstring key (replicate c 0 ++ sig) = inr (xor_untwirl c sig key).
Proof.
  intros Hkey Hlen. rewrite swap_bitstring_xor; [|done|].
  - unfold xor_untwirl. by rewrite fmap_app, fmap_replicate.
  - rewrite length_app, length_replicate. lia.
Qed.

Lemma fold_counts_layout (c : nat) (sig : list Z) (items : list (string * Z))
    (m : gmap string Z) :
  Forall (λ kv, is_bitstring kv.1 ∧
                String.length kv.1 = (c + length sig)%nat) items →
  fold_counts items (replicate c 0 ++ sig) m =
    inr (foldl (λ m kv, accumulate m (xor_untwirl c sig kv.1) kv.2) m items).
Proof.
  intros Hall. revert m.
  induction Hall as [|[k v] items [Hk Hl] _ IH]; intros m; simpl; [done|].
  simpl in *. rewrite (swap_bitstring_layout c sig k Hk Hl). simpl. apply IH.
Qed.

(** *** Missing metadata *)

Lemma fold_datum_lacks (d : datum) (m : gmap string Z) :
  lacks_metadata d → Py.raises (fold_datum d m).
Proof.
  intros Hl. unfold fold_datum, Py.raises.
  destruct (counts d) as [|[k v] items]; simpl; [eauto|].
  unfold Py.dict_getitem.
  destruct (metadata d !! "rm_bits") as [clbits|] eqn:Hb; simpl; [|eauto].
  destruct Hl as [Hl|Hl]; [congruence|]. rewrite Hl. simpl. eauto.
Qed.

Lemma fold_datum_KeyError (d : datum) (m : gmap string Z) :
  lacks_metadata d → counts d ≠ [] →
  fold_datum d m = inl (Py.KeyError (missing_key d)).
Proof.
  intros Hl Hne. unfold fold_datum, missing_key.
  destruct (counts d) as [|[k v] items]; [done|]. simpl.
  unfold Py.dict_getitem.
  destruct (metadata d !! "rm_bits") as [clbits|] eqn:Hb; simpl; [|done].
  destruct Hl as [Hl|Hl]; [congruence|]. by rewrite Hl.
Qed.

Lemma fold_data_app (pre post : list datum) (m : gmap string Z) :
  fold_data (pre ++ post) m = (m' <- fold_data pre m ;; fold_data post m').
Proof.
  revert m. induction pre as [|d pre IH]; intros m; simpl; [done|].
  destruct (fold_datum d m) as [e|m1]; simpl; [done | apply IH].
Qed.

Lemma fold_data_lacks (data : list datum) (d : datum) (m : gmap string Z) :
  d ∈ data → lacks_metadata d → Py.raises (fold_data data m).
Proof.
  intros Hin Hl. revert m.
  induction data as [|d' data IH]; intros m; [by apply elem_of_nil in Hin|].
  simpl. apply elem_of_cons in Hin as [<- | Hin].
  - destruct (fold_datum_lacks d m Hl) as [e ->]. simpl. by exists e.
  - destruct (fold_datum d' m) as [e|m1]; simpl; [by exists e | by apply IH].
Qed.

End AnalysisFacts.

(** ** Facts about the generator *)

Section GeneratorFacts.
Context `{Library}.

Lemma length_integers2 (rows cols : nat) (rng : bitgen) :
  length (integers2 rows cols rng).1 = rows.
Proof.
  revert rng. induction rows as [|rows IH]; intros rng; simpl; [done|].
  destruct (integers cols rng) as [r rng1].
  specialize (IH rng1). destruct (integers2 rows cols rng1) as [rs rng2].
  simpl in *. by rewrite IH.
Qed.

Lemma length_random_pauli_list (n size : nat) (rng : bitgen) :
  length (random_pauli_list n size rng).1 = size.
Proof.
  unfold random_pauli_list.
  pose proof (length_integers2 size n rng) as Hz.
  destruct (integers2 size n rng) as [z rng1].
  pose proof (length_integers2 size n rng1) as Hx.
  destruct (integers2 size n rng1) as [x rng2].
  simpl in *. rewrite length_zip_with. lia.
Qed.

(** The circuits are the loop body applied to the Paulis drawn from
    the generator the seed selects. *)
Lemma circuits_paulis (self : t) (w : world) :
  ∃ rng : bitgen,
    (circuits self w).1 =
      build self (range 0 (exp_num_qubits self))
        (range 0 (num_clbits (_circuit self)))
        (range (num_clbits (_circuit self))
           (num_clbits (_circuit self) + length (_measured_qubits self)))
        (default ∅ (circuit_metadata (_circuit self)))
      <$> (random_pauli_list (length (_measured_qubits self))
             (samples self) rng).1.
Proof.
  unfold circuits, samples. destruct (seed self) as [|n|].
  - exists (default_rng (os_entropy (entropy_used w))).
    by destruct (random_pauli_list _ _ _).
  - exists (default_rng n). by destruct (random_pauli_list _ _ _).
  - exists (generator w). by destruct (random_pauli_list _ _ _).
Qed.

Lemma length_circuits (self : t) (w : world) :
  length (circuits self w).1 = samples self.
Proof.
  destruct (circuits_paulis self w) as [rng ->].
  by rewrite length_fmap, length_random_pauli_list.
Qed.

Lemma circuits_seed_int (self : t) (n : Z) (w : world) :
  seed self = seed_int n →
  (circuits self w).2 = w ∧
  (circuits self w).1 =
    build self (range 0 (exp_num_qubits self))
      (range 0 (num_clbits (_circuit self)))
      (range (num_clbits (_circuit self))
         (num_clbits (_circuit self) + length (_measured_qubits self)))
      (default ∅ (circuit_metadata (_circuit self)))
    <$> (random_pauli_list (length (_measured_qubits self))
           (samples self) (default_rng n)).1.
Proof.
  intros Hseed. unfold circuits, samples. rewrite Hseed.
  by destruct (random_pauli_list _ _ _).
Qed.

End GeneratorFacts.

(** ** The analysis: statements *)

Section AnalysisClaims.

(** C10. Without data the analysis succeeds and returns the empty
    dictionary of counts. *)
Theorem run_analysis_no_data : _run_analysis [] = inr ∅.
Proof. reflexivity. Qed.

(** C2. When the analysis returns, the values of the combined counts add
    up to the sum of all counts of all the data: nothing is lost and
    nothing is counted twice. *)
Theorem run_analysis_conserves_counts (data : list datum)
    (combined : gmap string Z) :
  _run_analysis data = inr combined → total combined = total_data data.
Proof.
  unfold _run_analysis. intros Hrun.
  rewrite (total_fold_data _ _ _ Hrun), total_empty. lia.
Qed.

Lemma run_analysis_conserves_counts_witness :
  ∃ combined,
    _run_analysis data_two_circuits = inr combined ∧
    total combined = total_data data_two_circuits.
Proof.
  eexists. split; [reflexivity|].
  apply (run_analysis_conserves_counts data_two_circuits). reflexivity.
Defined.

(** The whole analysis of one datum tagged in the layout of the
    generator, key by key. *)
Lemma run_analysis_layout (d : datum) (c : nat) (sig : list Z) :
  metadata d !! "rm_bits" = Some (range c (c + length sig)) →
  metadata d !! "rm_sig" = Some sig →
  counts d ≠ [] →
  Forall (λ kv, is_bitstring kv.1 ∧
                String.length kv.1 = (c + length sig)%nat) (counts d) →
  _run_analysis [d] =
    inr (foldl (λ m kv, accumulate m (xor_untwirl c sig kv.1) kv.2)
           ∅ (counts d)).
Proof.
  intros Hbits Hsig Hne Hall. unfold _run_analysis. simpl.
  unfold fold_datum, Py.dict_getitem. rewrite Hbits, Hsig.
  destruct (counts d) as [|[k v] items] eqn:Hc; [done|].
  pose proof (Forall_inv Hall) as [_ Hk]. simpl in Hk. simpl.
  rewrite Hk, replicate_add.
  pose proof (fill_sig_range sig (replicate c 0)) as Hfill.
  rewrite length_replicate in Hfill. rewrite Hfill. simpl.
  change (Py.bind (fold_counts ((k, v) :: items) (replicate c 0 ++ sig) ∅)
            (λ m, inr m)
          = inr (foldl (λ m kv, accumulate m (xor_untwirl c sig kv.1) kv.2)
                   ∅ ((k, v) :: items))).
  by rewrite (fold_counts_layout c sig _ ∅ Hall).
Qed.




(** Under a signature of zeros no bit is swapped, and every key is
    returned read from right to left: the combined counts are the counts
    of the datum under the reversed keys. *)
Lemma run_analysis_zero_signature_reverses (d : datum) (clbits sig : list Z)
    (n : nat) :
  metadata d !! "rm_bits" = Some clbits →
  metadata d !! "rm_sig" = Some sig →
  Forall (λ s, s = 0) sig →
  Forall (λ b, - Z.of_nat n ≤ b < Z.of_nat n) clbits →
  counts d ≠ [] →
  Forall (λ kv, String.length kv.1 = n) (counts d) →
  NoDup (counts d).*1 →
  (∀ key val, (key, val) ∈ counts d →
     _swap_bitstring key (replicate n 0) = inr (reverse_string key)) ∧
  _run_analysis [d] = inr (list_to_map (reversed_items (counts d))).
Proof.
  intros Hbits Hsig Hzero Hpos Hne Hlen Hnd.
  assert (Hz : Forall (λ s, s = 0) (replicate n 0)).
  { apply Forall_forall. by intros s [-> _]%elem_of_replicate. }
  split.
  - intros key val Hin. apply swap_bitstring_zeros; [done|].
    rewrite Forall_forall in Hlen. specialize (Hlen _ Hin). simpl in Hlen.
    rewrite length_replicate. lia.
  - unfold _run_analysis. simpl.
    unfold fold_datum, Py.dict_getitem. rewrite Hbits, Hsig.
    destruct (counts d) as [|[k v] items] eqn:Hc; [done|].
    pose proof (Forall_inv Hlen) as Hk. simpl in Hk. simpl. rewrite Hk.
    rewrite fill_sig_zeros.
    2:{ apply Forall_forall. intros [b s] Hin. simpl. split.
        - apply elem_of_zip_l in Hin. simpl in Hin.
          rewrite Forall_forall in Hpos. specialize (Hpos _ Hin).
          unfold Py.position. repeat case_decide; eauto. lia.
        - apply elem_of_zip_r in Hin. simpl in Hin.
          rewrite Forall_forall in Hzero. by apply Hzero. }
    simpl.
    pose proof (fold_counts_zeros ((k, v) :: items) (replicate n 0) ∅ Hz)
      as Hfold.
    simpl in Hfold. rewrite Hfold; [| |done|].
    + simpl. by rewrite (right_id_L ∅ (∪)).
    + eapply Forall_impl; [exact Hlen|]. intros [k0 v0] Hk0. simpl in *.
      rewrite length_replicate. lia.
    + intros. apply lookup_empty.
Qed.

(** C3 at the input where the code departs from it. The signature
    [0, 0] asks for no flip, and the comprehension leaves the characters
    of "10" as they are; the reversal that follows returns "01", and the
    counts of "10" come back under "01". *)
Theorem zero_signature_returns_reversed_key :
  swap_chars 0 (String.list_ascii_of_string "10") [0; 0]
    = inr (String.list_ascii_of_string "10") ∧
  _swap_bitstring "10" [0; 0] = inr "01"%string ∧
  _run_analysis [datum_no_flip] = inr {["01"%string := 5]} ∧
  _run_analysis [datum_no_flip] ≠ inr (list_to_map (counts datum_no_flip)).
Proof.
  split; [reflexivity|]. split; [reflexivity|]. split; [reflexivity|].
  intros Heq. apply (f_equal (λ r, match r with
                                   | inr m => m !! "01"%string
                                   | inl _ => None
                                   end)) in Heq.
  vm_compute in Heq. discriminate.
Qed.

(** C8, as the code has it. Whenever some datum lacks "rm_bits" or
    "rm_sig" the analysis raises and returns no counts. The exception is
    the [KeyError] of the missing key when the data before that datum
    were folded without an exception and its own counts are not empty;
    an exception met earlier is raised instead. *)
Theorem run_analysis_missing_metadata_raises (data : list datum) :
  (∃ d, d ∈ data ∧ lacks_metadata d) →
  Py.raises (_run_analysis data) ∧
  ∀ pre d post combined,
    data = pre ++ d :: post →
    fold_data pre ∅ = inr combined →
    lacks_metadata d → counts d ≠ [] →
    _run_analysis data = inl (Py.KeyError (missing_key d)).
Proof.
  intros (d & Hin & Hl). split.
  - by apply (fold_data_lacks data d).
  - intros pre d' post combined -> Hpre Hl' Hne.
    unfold _run_analysis. rewrite fold_data_app, Hpre. simpl.
    by rewrite fold_datum_KeyError.
Qed.

Lemma run_analysis_missing_metadata_raises_witness :
  Py.raises (_run_analysis [datum_flip_first; datum_without_sig]) ∧
  _run_analysis [datum_flip_first; datum_without_sig]
    = inl (Py.KeyError "rm_sig").
Proof.
  assert (Hl : lacks_metadata datum_without_sig) by (right; reflexivity).
  destruct (run_analysis_missing_metadata_raises
              [datum_flip_first; datum_without_sig]) as [Hr Hk].
  - exists datum_without_sig. split; [|exact Hl].
    apply list_elem_of_further, list_elem_of_here.
  - split; [exact Hr|].
    apply (Hk [datum_flip_first] datum_without_sig [] {["11"%string := 5]});
      [reflexivity | reflexivity | exact Hl | discriminate].
Defined.

(** C8, as stated, fails: a datum without metadata and without counts
    makes the analysis raise [StopIteration], and behind a datum whose
    recorded position is out of range the exception is [IndexError];
    neither is the error of a missing key. *)
Lemma missing_metadata_other_exception :
  lacks_metadata datum_empty_untagged ∧
  _run_analysis [datum_empty_untagged] = inl Py.StopIteration ∧
  lacks_metadata datum_untagged ∧
  _run_analysis [datum_too_narrow; datum_untagged] = inl Py.IndexError.
Proof. repeat split; (by left) || reflexivity. Qed.

Lemma fold_datum_full_sig (d : datum) (m m' : gmap string Z) :
  fold_datum d m = inr m' →
  ∃ full_sig, full_sig_of d = inr full_sig ∧
              fold_counts (counts d) full_sig m = inr m'.
Proof.
  unfold fold_datum, full_sig_of. intros Hb.
  apply bind_inr in Hb as (first & -> & Hb). simpl.
  apply bind_inr in Hb as (clbits & -> & Hb). simpl.
  apply bind_inr in Hb as (sig & -> & Hb). simpl.
  apply bind_inr in Hb as (full_sig & -> & Hb). eauto.
Qed.

Lemma keys_fold_data_full_sig (data : list datum) (m m' : gmap string Z)
    (key : string) :
  fold_data data m = inr m' →
  is_Some (m' !! key) →
  is_Some (m !! key) ∨
  ∃ d full_sig key0 val,
    d ∈ data ∧ full_sig_of d = inr full_sig ∧ (key0, val) ∈ counts d ∧
    _swap_bitstring key0 full_sig = inr key.
Proof.
  revert m. induction data as [|d data IH]; intros m; simpl.
  - intros [= <-]. auto.
  - intros Hb Hkey. apply bind_inr in Hb as (m1 & Hd & Hb).
    destruct (IH _ Hb Hkey)
      as [Hin | (d' & fs & k0 & v & Hd' & Hfs & Hin & Hk0)].
    + apply fold_datum_full_sig in Hd as (full_sig & Hfs & Hd).
      destruct (keys_fold_counts _ _ _ _ _ Hd Hin) as [?|(k0 & v & ? & ?)];
        [auto|].
      right. exists d, full_sig, k0, v. split; [left | done].
    + right. exists d', fs, k0, v. split; [by right | done].
Qed.

(** C9, as the code has it. Every key of the combined counts is what
    [_swap_bitstring] returns for a key of some datum under the full
    signature of that same datum (its "rm_sig" spread over its "rm_bits"
    in a register as wide as its first key); it has the length of that
    key, the whole classical register and not the measured qubits alone,
    and is a bit string when that key is. *)
Theorem run_analysis_keys_are_swapped_input_keys (data : list datum)
    (combined : gmap string Z) (key : string) :
  _run_analysis data = inr combined →
  is_Some (combined !! key) →
  ∃ d full_sig key0 val,
    d ∈ data ∧ full_sig_of d = inr full_sig ∧ (key0, val) ∈ counts d ∧
    _swap_bitstring key0 full_sig = inr key ∧
    String.length key = String.length key0 ∧
    (is_bitstring key0 → is_bitstring key).
Proof.
  unfold _run_analysis. intros Hrun Hkey.
  destruct (keys_fold_data_full_sig _ _ _ _ Hrun Hkey)
    as [[x Hx] | (d & fs & k0 & v & Hd & Hfs & Hin & Hsw)].
  - by rewrite lookup_empty in Hx.
  - exists d, fs, k0, v. repeat split; try done;
      by apply (swap_bitstring_inr _ _ _ Hsw).
Qed.

Lemma run_analysis_keys_are_swapped_input_keys_witness :
  ∃ d full_sig key0 val,
    d ∈ [datum_two_of_three] ∧ full_sig_of d = inr full_sig ∧
    (key0, val) ∈ counts d ∧
    _swap_bitstring key0 full_sig = inr "100"%string ∧
    String.length "100" = String.length key0 ∧
    (is_bitstring key0 → is_bitstring "100").
Proof.
  apply (run_analysis_keys_are_swapped_input_keys
           [datum_two_of_three] {["100"%string := 3]} "100").
  - reflexivity.
  - exists 3. reflexivity.
Defined.

(** C9, as stated, fails: with one measured qubit behind one classical
    bit of the base circuit, the combined counts have the key "00", of
    length two; with two measured qubits behind one classical bit and a
    flip, the key "011" comes back as "100", of length three. *)
Lemma combined_key_longer_than_measured :
  (measured_count datum_one_of_two = Some 1%nat ∧
   _run_analysis [datum_one_of_two] = inr {["00"%string := 3]} ∧
   String.length "00" ≠ 1%nat) ∧
  (measured_count datum_two_of_three = Some 2%nat ∧
   full_sig_of datum_two_of_three = inr [0; 1; 0] ∧
   _run_analysis [datum_two_of_three] = inr {["100"%string := 3]} ∧
   String.length "100" ≠ 2%nat).
Proof.
  split.
  - split; [reflexivity|]. split; [reflexivity | discriminate].
  - split; [reflexivity|]. split; [reflexivity|].
    split; [reflexivity | discriminate].
Qed.

End AnalysisClaims.

(** ** The generator: statements *)

Section GeneratorClaims.

(** C5. Every circuit returned by [circuits] carries the base circuit on
    the classical bits [0 .. c-1] and measures the measured qubits, in
    their order, into the block [c .. c+k-1] that it records under
    "rm_bits": the block starts right after the bits of the base
    circuit, has one position per measured qubit, is contiguous and
    shares no position with the bits of the base circuit. *)
Theorem circuits_reserve_fresh_clbits `{Library} (self : t) (w : world)
    (circ : QuantumCircuit) :
  circ ∈ (circuits self w).1 →
  (∃ pauli,
     qc_calls circ =
       [ compose_circuit (_circuit self)
           (range 0 (exp_num_qubits self)) (range 0 (circ_nc self));
         compose_pauli pauli (_measured_qubits self);
         measure (_measured_qubits self) (meas_clbits self) ]) ∧
  qc_metadata circ !! "rm_bits" = Some (meas_clbits self) ∧
  qc_num_clbits circ = (circ_nc self + meas_nc self)%nat ∧
  length (meas_clbits self) = meas_nc self ∧
  (∀ i, (i < meas_nc self)%nat →
     meas_clbits self !! i = Some (Z.of_nat (circ_nc self + i))) ∧
  (∀ b, b ∈ meas_clbits self → b ∉ range 0 (circ_nc self)).
Proof.
  intros Hin. unfold meas_clbits, meas_nc, circ_nc.
  set (c := num_clbits (_circuit self)).
  set (k := length (_measured_qubits self)).
  destruct (circuits_paulis self w) as [rng Heq].
  rewrite Heq in Hin. apply list_elem_of_fmap in Hin as (pauli & -> & _).
  split; [by exists pauli|]. split.
  { simpl. rewrite lookup_insert_ne by done. apply lookup_insert_eq. }
  split; [done|]. split; [rewrite length_range; lia|]. split.
  - intros i Hi. apply lookup_range. lia.
  - intros b Hb Hb'. apply elem_of_range in Hb, Hb'. lia.
Qed.

Lemma circuits_reserve_fresh_clbits_witness :
  qc_metadata first_circuit_seed_7 !! "rm_bits" = Some [1; 2] ∧
  qc_num_clbits first_circuit_seed_7 = 3%nat.
Proof.
  assert (Hin : first_circuit_seed_7 ∈ (circuits experiment_seed_7 world0).1).
  { vm_compute. apply list_elem_of_here. }
  destruct (circuits_reserve_fresh_clbits experiment_seed_7 world0
              first_circuit_seed_7 Hin) as (_ & Hbits & Hnc & _).
  split; [exact Hbits | exact Hnc].
Defined.

(** C6, as the code has it. When [num_samples] is passed as [None],
    [circuits] returns [2 ^ n] circuits for [n] the number of qubits of
    the experiment, which is the number of qubits of the base circuit
    when no physical qubits are given; a caller who leaves
    [num_samples] out gets the ten samples of the constructor's
    default. *)
Theorem circuits_default_sample_count `{Library} (circuit : Circuit)
    (measured_qubits physical_qubits : option (list Z))
    (sd : option seed_option) (w : world) :
  length (circuits (__init__ circuit measured_qubits physical_qubits
                      (Some None) sd) w).1
    = (2 ^ exp_num_qubits (__init__ circuit measured_qubits physical_qubits
                             (Some None) sd))%nat ∧
  exp_num_qubits (__init__ circuit measured_qubits None (Some None) sd)
    = num_qubits circuit ∧
  length (circuits (__init__ circuit measured_qubits physical_qubits
                      None sd) w).1 = 10%nat.
Proof.
  split; [|split].
  - by rewrite length_circuits.
  - unfold exp_num_qubits. simpl. rewrite length_range. lia.
  - by rewrite length_circuits.
Qed.

(** C6, as stated, fails: with [num_samples] left out, one measured
    qubit gives ten circuits, not two; with [num_samples] passed as
    [None], one measured qubit of a circuit on two qubits gives four
    circuits, not two. *)
Lemma default_sample_count_is_not_2_pow_measured :
  length (_measured_qubits
            (__init__ circuit_one_qubit None None None None)) = 1%nat ∧
  length (circuits (__init__ circuit_one_qubit None None None None)
            world0).1 = 10%nat ∧
  length (_measured_qubits
            (__init__ circuit_two_qubits (Some [0]) None (Some None) None))
    = 1%nat ∧
  length (circuits
            (__init__ circuit_two_qubits (Some [0]) None (Some None) None)
            world0).1 = 4%nat.
Proof. repeat split; vm_compute; reflexivity. Qed.

(** C4. The circuits depend on the world through the generator the seed
    selects and through nothing else: two calls that draw from a generator
    in the same state return the same circuits, the same Paulis in the
    same order and the same reserved classical bits. With an integer seed
    this holds of any two calls, the second of two calls in a row
    included, and with a [Generator] object of any two calls that find it
    in the same state. *)
Theorem circuits_same_seed_same_circuits `{Library} (self : t)
    (w w' : world) :
  (rng_of self w = rng_of self w' →
     (circuits self w).1 = (circuits self w').1) ∧
  (∀ n, seed self = seed_int n →
     (circuits self w).1 = (circuits self w').1 ∧
     (circuits self (circuits self w).2).1 = (circuits self w).1) ∧
  (seed self = seed_Generator → generator w = generator w' →
     (circuits self w).1 = (circuits self w').1).
Proof.
  assert (Hgen : rng_of self w = rng_of self w' →
                 (circuits self w).1 = (circuits self w').1).
  { unfold rng_of, circuits. destruct (seed self) as [|n|]; intros Heq.
    - rewrite Heq. by destruct (random_pauli_list _ _ _).
    - by destruct (random_pauli_list _ _ _).
    - rewrite Heq. by destruct (random_pauli_list _ _ _). }
  split; [exact Hgen|]. split.
  - intros n Hseed.
    destruct (circuits_seed_int self n w Hseed) as [Hw Hcs].
    destruct (circuits_seed_int self n w' Hseed) as [_ Hcs'].
    split; [by rewrite Hcs, Hcs' | by rewrite Hw].
  - intros Hseed Heq. apply Hgen. unfold rng_of. by rewrite Hseed.
Qed.

Lemma circuits_same_seed_same_circuits_witness :
  (circuits experiment_shared_generator world0).1
  = (circuits experiment_shared_generator world_later).1 ∧
  (circuits experiment_seed_7 (circuits experiment_seed_7 world0).2).1
  = (circuits experiment_seed_7 world0).1.
Proof.
  split.
  - apply (proj1 (circuits_same_seed_same_circuits
                    experiment_shared_generator world0 world_later)).
    reflexivity.
  - exact (proj2 (proj1 (proj2 (circuits_same_seed_same_circuits
                    experiment_seed_7 world0 world0)) 7 eq_refl)).
Defined.

End GeneratorClaims.


(** ** The analysis as a sum of histograms *)

Section AnalysisAlgebra.

Lemma lookup_merge (m1 m2 : gmap string Z) (k : string) :
  merge m1 m2 !! k = union_with (λ a b, Some (a + b)) (m1 !! k) (m2 !! k).
Proof. unfold merge. apply lookup_union_with. Qed.

Lemma merge_empty_l (m : gmap string Z) : merge ∅ m = m.
Proof.
  apply map_eq. intros k. rewrite lookup_merge, lookup_empty.
  by destruct (m !! k).
Qed.

Lemma merge_empty_r (m : gmap string Z) : merge m ∅ = m.
Proof.
  apply map_eq. intros k. rewrite lookup_merge, lookup_empty.
  by destruct (m !! k).
Qed.

Lemma merge_comm (m1 m2 : gmap string Z) : merge m1 m2 = merge m2 m1.
Proof.
  apply map_eq. intros k. rewrite !lookup_merge.
  destruct (m1 !! k), (m2 !! k); simpl; try done. f_equal. lia.
Qed.

Lemma merge_assoc (m1 m2 m3 : gmap string Z) :
  merge m1 (merge m2 m3) = merge (merge m1 m2) m3.
Proof.
  apply map_eq. intros k. rewrite !lookup_merge.
  destruct (m1 !! k), (m2 !! k), (m3 !! k); simpl; try done. f_equal. lia.
Qed.

Lemma accumulate_merge (m : gmap string Z) (k : string) (v : Z) :
  accumulate m k v = merge m {[k := v]}.
Proof.
  apply map_eq. intros k'. rewrite lookup_merge. unfold accumulate.
  destruct (decide (k' = k)) as [->|Hne].
  - rewrite lookup_singleton_eq.
    destruct (m !! k) as [old|] eqn:Hk; rewrite lookup_insert_eq; by rewrite ?Hk.
  - rewrite lookup_singleton_ne by done.
    destruct (m !! k) as [old|]; rewrite lookup_insert_ne by done;
      by destruct (m !! k').
Qed.

Lemma foldl_add_item (items : list (string * Z)) (m : gmap string Z) :
  foldl add_item m items = merge m (histogram items).
Proof.
  revert m. induction items as [|[k v] items IH]; intros m; simpl.
  - by rewrite merge_empty_r.
  - rewrite IH. unfold add_item. simpl.
    by rewrite accumulate_merge, merge_assoc.
Qed.

Lemma histogram_app (a b : list (string * Z)) :
  histogram (a ++ b) = merge (histogram a) (histogram b).
Proof.
  induction a as [|[k v] a IH]; simpl.
  - by rewrite merge_empty_l.
  - by rewrite IH, merge_assoc.
Qed.

Lemma histogram_Permutation (a b : list (string * Z)) :
  a ≡ₚ b → histogram a = histogram b.
Proof.
  induction 1 as [|x a b _ IH|x y a|a b c _ IH1 _ IH2]; simpl.
  - done.
  - by rewrite IH.
  - rewrite !merge_assoc. f_equal. apply merge_comm.
  - by rewrite IH1.
Qed.

Lemma histogram_nonneg (items : list (string * Z)) (k : string) (v : Z) :
  Forall (λ kv : string * Z, 0 ≤ kv.2) items →
  histogram items !! k = Some v → 0 ≤ v.
Proof.
  intros Hall. revert v.
  induction Hall as [|[k0 v0] items Hv _ IH]; intros v; simpl.
  - by rewrite lookup_empty.
  - rewrite lookup_merge. simpl in Hv.
    destruct (decide (k = k0)) as [->|Hne].
    + rewrite lookup_singleton_eq.
      destruct (histogram items !! k0) as [v1|] eqn:Hk; simpl.
      * intros [= <-]. specialize (IH v1 eq_refl). lia.
      * intros [= <-]. done.
    + rewrite lookup_singleton_ne by done.
      destruct (histogram items !! k) as [v1|] eqn:Hk; simpl; [|done].
      intros [= <-]. by apply IH.
Qed.

(** The loops in terms of the swapped items. *)

Lemma fold_counts_swap_items (items : list (string * Z)) (full_sig : list Z)
    (m : gmap string Z) :
  fold_counts items full_sig m =
    (swapped_items <- swap_items items full_sig ;;
     inr (foldl add_item m swapped_items)).
Proof.
  revert m. induction items as [|[key val] items IH]; intros m; simpl; [done|].
  destruct (_swap_bitstring key full_sig) as [e|bitstring]; simpl; [done|].
  rewrite IH. by destruct (swap_items items full_sig).
Qed.

Lemma fold_datum_swapped (d : datum) (m : gmap string Z) :
  fold_datum d m = (items <- swapped d ;; inr (merge m (histogram items))).
Proof.
  unfold fold_datum, swapped.
  destruct (Py.first_key (counts d)) as [e|first]; simpl; [done|].
  destruct (Py.dict_getitem (metadata d) "rm_bits") as [e|clbits]; simpl;
    [done|].
  destruct (Py.dict_getitem (metadata d) "rm_sig") as [e|sig]; simpl; [done|].
  destruct (fill_sig _ _) as [e|full_sig]; simpl; [done|].
  rewrite fold_counts_swap_items.
  destruct (swap_items _ _) as [e|items]; simpl; [done|].
  by rewrite foldl_add_item.
Qed.

Lemma fold_data_swapped_all (data : list datum) (m : gmap string Z) :
  fold_data data m =
    (items <- swapped_all data ;; inr (merge m (histogram items))).
Proof.
  revert m. induction data as [|d data IH]; intros m; simpl.
  - by rewrite merge_empty_r.
  - rewrite fold_datum_swapped.
    destruct (swapped d) as [e|items]; simpl; [done|].
    rewrite IH. destruct (swapped_all data) as [e|rest]; simpl; [done|].
    by rewrite histogram_app, merge_assoc.
Qed.

Lemma run_analysis_swapped_all (data : list datum) :
  _run_analysis data = (items <- swapped_all data ;; inr (histogram items)).
Proof.
  unfold _run_analysis. rewrite fold_data_swapped_all.
  destruct (swapped_all data) as [e|items]; simpl; [done|].
  by rewrite merge_empty_l.
Qed.

Lemma swapped_all_app (a b : list datum) :
  swapped_all (a ++ b) =
    (items_a <- swapped_all a ;; items_b <- swapped_all b ;;
     inr (items_a ++ items_b)).
Proof.
  induction a as [|d a IH]; simpl.
  - by destruct (swapped_all b).
  - destruct (swapped d) as [e|items]; simpl; [done|]. rewrite IH.
    destruct (swapped_all a) as [e|items_a]; simpl; [done|].
    destruct (swapped_all b) as [e|items_b]; simpl; [done|].
    by rewrite (assoc_L (++)).
Qed.

Lemma swapped_all_Permutation (a b : list datum) (items : list (string * Z)) :
  a ≡ₚ b → swapped_all a = inr items →
  ∃ items', swapped_all b = inr items' ∧ items ≡ₚ items'.
Proof.
  intros Hp. revert items.
  induction Hp as [|d a b _ IH|d1 d2 a|a b c _ IH1 _ IH2]; intros items; simpl.
  - intros [= <-]. by exists [].
  - destruct (swapped d) as [e|its]; simpl; [done|].
    destruct (swapped_all a) as [e|ra]; simpl; [done|]. intros [= <-].
    destruct (IH ra eq_refl) as (rb & -> & Hperm). simpl.
    exists (its ++ rb). split; [done|]. by rewrite Hperm.
  - destruct (swapped d2) as [e|i2]; simpl; [done|].
    destruct (swapped d1) as [e|i1]; simpl; [done|].
    destruct (swapped_all a) as [e|ra]; simpl; [done|]. intros [= <-].
    exists (i1 ++ i2 ++ ra). split; [done|]. apply Permutation_app_swap_app.
  - intros Ha. destruct (IH1 _ Ha) as (ib & Hb & Hp1).
    destruct (IH2 _ Hb) as (ic & Hc & Hp2).
    exists ic. split; [done|]. by rewrite Hp1.
Qed.

Lemma swap_items_vals (items swapped_items : list (string * Z))
    (full_sig : list Z) :
  swap_items items full_sig = inr swapped_items →
  swapped_items.*2 = items.*2.
Proof.
  revert swapped_items. induction items as [|[k v] items IH];
    intros swapped_items; simpl.
  - by intros [= <-].
  - intros Hb. apply bind_inr in Hb as (b & _ & Hb).
    apply bind_inr in Hb as (r & Hr & Hb). injection Hb as <-.
    rewrite !fmap_cons. simpl. f_equal. by apply IH.
Qed.

Lemma swapped_vals (d : datum) (items : list (string * Z)) :
  swapped d = inr items → items.*2 = (counts d).*2.
Proof.
  unfold swapped. intros Hb.
  apply bind_inr in Hb as (first & _ & Hb).
  apply bind_inr in Hb as (clbits & _ & Hb).
  apply bind_inr in Hb as (sig & _ & Hb).
  apply bind_inr in Hb as (full_sig & _ & Hb).
  by eapply swap_items_vals.
Qed.

Lemma swapped_all_nonneg (data : list datum) (items : list (string * Z)) :
  nonneg_counts data → swapped_all data = inr items →
  Forall (λ kv : string * Z, 0 ≤ kv.2) items.
Proof.
  intros Hall. revert items.
  induction Hall as [|d data Hd _ IH]; intros items; simpl.
  - by intros [= <-].
  - intros Hb. apply bind_inr in Hb as (its & Hits & Hb).
    apply bind_inr in Hb as (rest & Hrest & Hb). injection Hb as <-.
    apply Forall_app. split; [|by apply IH].
    apply swapped_vals in Hits.
    assert (Hv : Forall (λ v : Z, 0 ≤ v) its.*2).
    { rewrite Hits.
      apply (proj2 (Forall_fmap snd (λ v : Z, 0 ≤ v) (counts d))). exact Hd. }
    exact (proj1 (Forall_fmap snd (λ v : Z, 0 ≤ v) its) Hv).
Qed.

End AnalysisAlgebra.

(** ** The analysis: how runs compose *)

Section AnalysisComposition.

(** X1. The order of the data does not matter: when the analysis of the
    data returns, the analysis of any rearrangement of the data returns the
    same combined counts. *)
Theorem run_analysis_any_order (data data' : list datum)
    (combined : gmap string Z) :
  data ≡ₚ data' →
  _run_analysis data = inr combined →
  _run_analysis data' = inr combined.
Proof.
  intros Hp. rewrite !run_analysis_swapped_all. intros Hb.
  apply bind_inr in Hb as (items & Hitems & Hb). injection Hb as <-.
  destruct (swapped_all_Permutation _ _ _ Hp Hitems) as (items' & -> & Hperm).
  simpl. by rewrite (histogram_Permutation _ _ Hperm).
Qed.

Lemma run_analysis_any_order_witness :
  ∃ combined,
    _run_analysis data_two_circuits = inr combined ∧
    _run_analysis (reverse data_two_circuits) = inr combined.
Proof.
  eexists. split; [reflexivity|].
  apply (run_analysis_any_order data_two_circuits).
  - symmetry. apply reverse_Permutation.
  - reflexivity.
Defined.

(** X2. Data can be analysed in parts: when the analyses of two lists of
    data return, the analysis of their concatenation returns the two
    results added key by key. *)
Theorem run_analysis_app (a b : list datum) (ma mb : gmap string Z) :
  _run_analysis a = inr ma →
  _run_analysis b = inr mb →
  _run_analysis (a ++ b) = inr (merge ma mb).
Proof.
  rewrite !run_analysis_swapped_all, swapped_all_app. intros Ha Hb.
  apply bind_inr in Ha as (ia & -> & Ha). injection Ha as <-.
  apply bind_inr in Hb as (ib & -> & Hb). injection Hb as <-.
  simpl. by rewrite histogram_app.
Qed.

Lemma run_analysis_app_witness :
  _run_analysis ([datum_flip_first] ++ [datum_no_flip])
  = inr (merge {["11"%string := 5]} {["01"%string := 5]}).
Proof.
  apply (run_analysis_app [datum_flip_first] [datum_no_flip]); reflexivity.
Defined.

(** X3. The exception of a run is the exception of the first datum that
    fails, whatever was accumulated before it: a failure of the first
    part is the failure of the whole, and after a first part that returns,
    a failure of the second part alone is the failure of the whole. *)
Theorem run_analysis_app_raises (a b : list datum) (e : Py.exn) :
  (_run_analysis a = inl e → _run_analysis (a ++ b) = inl e) ∧
  (∀ ma, _run_analysis a = inr ma → _run_analysis b = inl e →
         _run_analysis (a ++ b) = inl e).
Proof.
  rewrite !run_analysis_swapped_all, swapped_all_app. split.
  - destruct (swapped_all a) as [e'|ia]; simpl; [done | discriminate].
  - intros ma. destruct (swapped_all a) as [e'|ia]; simpl; [discriminate|].
    intros _. destruct (swapped_all b) as [e'|ib]; simpl; [done | discriminate].
Qed.

Lemma run_analysis_app_raises_witness :
  _run_analysis ([datum_flip_first] ++ [datum_too_narrow]) = inl Py.IndexError.
Proof.
  apply (proj2 (run_analysis_app_raises [datum_flip_first] [datum_too_narrow]
                  Py.IndexError) {["11"%string := 5]}); reflexivity.
Defined.

(** X4. Combined counts only grow with more data: every key present after
    a first part of the data is still present after more data, and when
    the further counts are non-negative its count has not decreased. *)
Theorem run_analysis_monotone (first more : list datum)
    (m1 m2 : gmap string Z) (k : string) (v : Z) :
  _run_analysis first = inr m1 →
  _run_analysis (first ++ more) = inr m2 →
  m1 !! k = Some v →
  ∃ v', m2 !! k = Some v' ∧ (nonneg_counts more → v ≤ v').
Proof.
  rewrite !run_analysis_swapped_all, swapped_all_app. intros H1 H2 Hk.
  apply bind_inr in H1 as (i1 & Hi1 & H1). injection H1 as <-.
  rewrite Hi1 in H2. simpl in H2.
  apply bind_inr in H2 as (i & H2 & H3). injection H3 as <-.
  apply bind_inr in H2 as (i2 & Hi2 & H2). injection H2 as <-.
  rewrite histogram_app, lookup_merge, Hk.
  destruct (histogram i2 !! k) as [v2|] eqn:Hk2; simpl.
  - exists (v + v2). split; [done|]. intros Hnn.
    pose proof (swapped_all_nonneg _ _ Hnn Hi2) as Hall.
    pose proof (histogram_nonneg _ _ _ Hall Hk2). lia.
  - exists v. split; [done|]. lia.
Qed.

Lemma run_analysis_monotone_witness :
  ∃ v', merge {["11"%string := 5]} {["01"%string := 5]} !! "11"%string
        = Some v' ∧
        (nonneg_counts [datum_no_flip] → 5 ≤ v').
Proof.
  apply (run_analysis_monotone [datum_flip_first] [datum_no_flip]
           {["11"%string := 5]}); reflexivity.
Defined.

(** X5. Non-negative counts give non-negative combined counts. *)
Theorem run_analysis_nonneg (data : list datum) (combined : gmap string Z)
    (k : string) (v : Z) :
  nonneg_counts data →
  _run_analysis data = inr combined →
  combined !! k = Some v → 0 ≤ v.
Proof.
  rewrite run_analysis_swapped_all. intros Hnn Hb Hk.
  apply bind_inr in Hb as (items & Hitems & Hb). injection Hb as <-.
  eapply histogram_nonneg; [|exact Hk]. by eapply swapped_all_nonneg.
Qed.

Lemma run_analysis_nonneg_witness : 0 ≤ 5.
Proof.
  apply (run_analysis_nonneg [datum_flip_first] {["11"%string := 5]} "11").
  - repeat constructor; simpl; lia.
  - reflexivity.
  - reflexivity.
Defined.

End AnalysisComposition.

(** ** [_swap_bitstring]: what it accepts and what it keeps apart *)

Section SwapBitstring.

Lemma flip_char_inj (s : Z) (c1 c2 c : ascii) :
  flip_char s c1 = inr c → flip_char s c2 = inr c → c1 = c2.
Proof.
  unfold flip_char, _swap_bit. destruct (Py.truthy s); [|congruence].
  repeat case_decide; congruence.
Qed.

Lemma swap_chars_inj (cs1 cs2 out : list ascii) (sig : list Z) (i : nat) :
  swap_chars i cs1 sig = inr out → swap_chars i cs2 sig = inr out → cs1 = cs2.
Proof.
  revert cs2 out i. induction cs1 as [|c1 cs1 IH]; intros [|c2 cs2] out i.
  - done.
  - intros [= <-] H2. apply swap_chars_inr in H2 as [H2 _]. done.
  - intros H1 [= <-]. apply swap_chars_inr in H1 as [H1 _]. done.
  - rewrite !swap_chars_cons. intros H1 H2.
    apply bind_inr in H1 as (s1 & Hs1 & H1).
    apply bind_inr in H1 as (a1 & Ha1 & H1).
    apply bind_inr in H1 as (r1 & Hr1 & H1). injection H1 as <-.
    apply bind_inr in H2 as (s2 & Hs2 & H2).
    apply bind_inr in H2 as (a2 & Ha2 & H2).
    apply bind_inr in H2 as (r2 & Hr2 & H2). injection H2 as -> ->.
    rewrite Hs1 in Hs2. injection Hs2 as <-.
    f_equal; [by eapply flip_char_inj | by eapply IH].
Qed.

(** X6. [_swap_bitstring] keeps distinct keys apart: two keys that are
    swapped to the same string under the same signature are the same
    key, so one circuit's outcomes are never merged with each other. *)
Theorem swap_bitstring_inj (key1 key2 out : string) (sig : list Z) :
  _swap_bitstring key1 sig = inr out →
  _swap_bitstring key2 sig = inr out →
  key1 = key2.
Proof.
  unfold _swap_bitstring. intros H1 H2.
  apply bind_inr in H1 as (cs1 & Hcs1 & H1). injection H1 as <-.
  apply bind_inr in H2 as (cs2 & Hcs2 & H2). injection H2 as H2.
  apply (f_equal String.list_ascii_of_string) in H2.
  rewrite !String.list_ascii_of_string_of_list_ascii in H2.
  apply (inj reverse) in H2. subst cs2.
  pose proof (swap_chars_inj _ _ _ _ _ Hcs1 Hcs2) as Heq.
  apply (f_equal String.string_of_list_ascii) in Heq.
  by rewrite !String.string_of_list_ascii_of_string in Heq.
Qed.

Lemma swap_bitstring_inj_witness : "10"%string = "10"%string.
Proof.
  apply (swap_bitstring_inj "10" "10" "11" [1; 0]); reflexivity.
Defined.

Lemma swap_chars_short_sig (cs : list ascii) (sig : list Z) (i : nat) :
  Forall (λ c : ascii, c = "0"%char ∨ c = "1"%char) cs →
  cs ≠ [] →
  (length sig < i + length cs)%nat →
  swap_chars i cs sig = inl Py.IndexError.
Proof.
  intros Hcs. revert i. induction Hcs as [|c cs Hc _ IH]; intros i Hne Hlen.
  - done.
  - rewrite swap_chars_cons. simpl in Hlen.
    destruct (decide (i < length sig)%nat) as [Hi|Hi].
    + destruct (lookup_lt_is_Some_2 sig (length sig - 1 - i)) as [s Hs]; [lia|].
      rewrite (getitem_back sig i s Hs Hi). simpl.
      rewrite (flip_char_bit _ _ Hc). simpl.
      rewrite IH; [done| |lia].
      intros ->. simpl in Hlen. lia.
    + unfold Py.getitem. by rewrite position_back_None by lia.
Qed.

(** X7. On a key that is a bit string, [_swap_bitstring] returns a bit
    string of the same length when the signature has at least as many
    entries as the key has characters, and raises [IndexError] when the
    key is longer than the signature. *)
Theorem swap_bitstring_bit_string (key : string) (sig : list Z) :
  is_bitstring key →
  ((String.length key ≤ length sig)%nat →
     ∃ out, _swap_bitstring key sig = inr out ∧ is_bitstring out ∧
            String.length out = String.length key) ∧
  ((length sig < String.length key)%nat →
     _swap_bitstring key sig = inl Py.IndexError).
Proof.
  intros Hkey. split; intros Hlen.
  - pose proof (swap_chars_xor (String.list_ascii_of_string key) sig 0 Hkey)
      as Hsw.
    rewrite length_list_ascii_of_string in Hsw. specialize (Hsw Hlen).
    eexists. unfold _swap_bitstring. rewrite Hsw. simpl. split; [done|].
    assert (Hout : _swap_bitstring key sig = inr (String.string_of_list_ascii
      (reverse (zip_with (λ c s,
         char_of_bit (xorb (bit_of_char c) (Py.truthy s)))
         (String.list_ascii_of_string key) (drop 0 (reverse sig)))))).
    { unfold _swap_bitstring. by rewrite Hsw. }
    destruct (swap_bitstring_inr _ _ _ Hout) as [Hl Hb]. split; [by apply Hb|done].
  - unfold _swap_bitstring. rewrite swap_chars_short_sig; [done|done| |].
    + intros Hnil. apply (f_equal length) in Hnil.
      rewrite length_list_ascii_of_string in Hnil. simpl in Hnil. lia.
    + rewrite length_list_ascii_of_string. lia.
Qed.

Lemma swap_bitstring_bit_string_witness :
  _swap_bitstring "101" [1; 0] = inl Py.IndexError.
Proof.
  refine (proj2 (swap_bitstring_bit_string "101" [1; 0] _) _).
  - apply Forall_cons. split; [by right|].
    apply Forall_cons. split; [by left|].
    apply Forall_singleton. by right.
  - simpl. lia.
Defined.

Lemma swap_chars_app (pre rest : list ascii) (sig : list Z) (i : nat) :
  swap_chars i (pre ++ rest) sig =
    (a <- swap_chars i pre sig ;;
     b <- swap_chars (i + length pre) rest sig ;;
     inr (a ++ b)).
Proof.
  revert i. induction pre as [|c pre IH]; intros i.
  - simpl. replace (i + 0)%nat with i by lia.
    by destruct (swap_chars i rest sig).
  - simpl app. rewrite !swap_chars_cons.
    destruct (Py.getitem sig (- 1 - Z.of_nat i)) as [e|s]; simpl; [done|].
    destruct (flip_char s c) as [e|c']; simpl; [done|].
    rewrite IH. replace (S i + length pre)%nat with (i + S (length pre))%nat
      by lia.
    destruct (swap_chars (S i) pre sig) as [e|a]; simpl; [done|].
    by destruct (swap_chars (i + S (length pre)) rest sig).
Qed.

(** X8. A character other than 0 and 1 at a position the signature flips
    makes [_swap_bitstring] raise the [KeyError] of that character: the
    characters before it being bits and the signature being long enough,
    the first such character is the one reported. *)
Theorem swap_bitstring_foreign_character (key : string) (sig : list Z)
    (pre post : list ascii) (c : ascii) (s : Z) :
  String.list_ascii_of_string key = pre ++ c :: post →
  Forall (λ b : ascii, b = "0"%char ∨ b = "1"%char) pre →
  c ≠ "0"%char → c ≠ "1"%char →
  (length pre < length sig)%nat →
  sig !! (length sig - 1 - length pre)%nat = Some s →
  Py.truthy s = true →
  _swap_bitstring key sig = inl (Py.KeyError (String c EmptyString)).
Proof.
  intros Hkey Hpre Hc0 Hc1 Hlen Hs Ht. unfold _swap_bitstring.
  rewrite Hkey, swap_chars_app, swap_chars_xor by (done || (simpl; lia)).
  simpl. rewrite (getitem_back sig (length pre) s Hs Hlen). simpl.
  rewrite Ht. unfold _swap_bit. by rewrite !decide_False by done.
Qed.

Lemma swap_bitstring_foreign_character_witness :
  _swap_bitstring "1 0" [0; 1; 0] = inl (Py.KeyError " ").
Proof.
  apply (swap_bitstring_foreign_character "1 0" [0; 1; 0]
           ["1"%char] ["0"%char] " "%char 1).
  - reflexivity.
  - apply Forall_singleton. by right.
  - discriminate.
  - discriminate.
  - simpl. lia.
  - reflexivity.
  - reflexivity.
Defined.

Lemma bits_of_string_of_bits (bs : list bool) :
  bits_of_string (string_of_bits bs) = bs.
Proof.
  unfold bits_of_string, string_of_bits.
  rewrite String.list_ascii_of_string_of_list_ascii, <- list_fmap_compose.
  induction bs as [|b bs IH]; [done|].
  rewrite fmap_cons, IH. by destruct b.
Qed.

Lemma string_of_bits_of_string (key : string) :
  is_bitstring key → string_of_bits (bits_of_string key) = key.
Proof.
  unfold is_bitstring, string_of_bits, bits_of_string. intros Hkey.
  rewrite <- (String.string_of_list_ascii_of_string key) at 2. f_equal.
  rewrite <- list_fmap_compose.
  induction Hkey as [|c cs Hc _ IH]; [done|].
  rewrite fmap_cons, IH. by destruct Hc as [-> | ->].
Qed.

Lemma is_bitstring_string_of_bits (bs : list bool) :
  is_bitstring (string_of_bits bs).
Proof.
  unfold is_bitstring, string_of_bits.
  rewrite String.list_ascii_of_string_of_list_ascii.
  apply Forall_fmap, Forall_true. intros []; simpl; auto.
Qed.

Lemma length_string_of_bits (bs : list bool) :
  String.length (string_of_bits bs) = length bs.
Proof.
  unfold string_of_bits. by rewrite length_string_of_list_ascii, length_fmap.
Qed.

Lemma length_bits_of_string (key : string) :
  length (bits_of_string key) = String.length key.
Proof.
  unfold bits_of_string. by rewrite length_fmap, length_list_ascii_of_string.
Qed.

Lemma zip_with_xorb_cancel (a b : list bool) :
  length a = length b → zip_with xorb (zip_with xorb a b) b = a.
Proof.
  revert b. induction a as [|x a IH]; intros [|y b] Hlen; try done.
  simpl in *. rewrite IH by lia. f_equal. by destruct x, y.
Qed.

(** X9. Swapping is undone by swapping under the signature read
    backwards: for a bit string and a signature of the same length, the
    key returned by [_swap_bitstring] is taken back to the original key by
    a second call with the reversed signature. *)
Theorem swap_bitstring_round_trip (key : string) (sig : list Z) :
  is_bitstring key →
  length sig = String.length key →
  ∃ out, _swap_bitstring key sig = inr out ∧
         _swap_bitstring out (reverse sig) = inr key.
Proof.
  intros Hkey Hlen. eexists. split; [by apply swap_bitstring_xor|].
  assert (Hl : length (reverse (bits_of_string key))
               = length (Py.truthy <$> sig)).
  { by rewrite length_reverse, length_bits_of_string, length_fmap. }
  rewrite swap_bitstring_xor.
  - f_equal. rewrite bits_of_string_of_bits, reverse_zip_with by done.
    rewrite reverse_involutive, fmap_reverse, zip_with_xorb_cancel.
    + by apply string_of_bits_of_string.
    + by rewrite length_reverse, length_bits_of_string, length_fmap.
  - apply is_bitstring_string_of_bits.
  - rewrite length_reverse, length_string_of_bits, length_zip_with, <- Hl.
    rewrite length_reverse, length_bits_of_string. lia.
Qed.

Lemma swap_bitstring_round_trip_witness :
  ∃ out, _swap_bitstring "100" [1; 1; 0] = inr out ∧
         _swap_bitstring out (reverse [1; 1; 0]) = inr "100"%string.
Proof.
  apply (swap_bitstring_round_trip "100" [1; 1; 0]).
  - apply Forall_cons. split; [by right|].
    apply Forall_cons. split; [by left|].
    apply Forall_singleton. by left.
  - reflexivity.
Defined.

End SwapBitstring.

(** ** The analysis: malformed data *)

Section AnalysisErrors.

Lemma setitem_length {A} (l l' : list A) (i : Z) (x : A) :
  Py.setitem l i x = inr l' → length l' = length l.
Proof.
  unfold Py.setitem. destruct (Py.position (length l) i); [|done].
  intros [= <-]. apply length_insert.
Qed.

Lemma fill_sig_out_of_range (full_sig : list Z) (pairs : list (Z * Z))
    (bit val : Z) :
  (bit, val) ∈ pairs →
  Py.position (length full_sig) bit = None →
  fill_sig full_sig pairs = inl Py.IndexError.
Proof.
  revert full_sig. induction pairs as [|[b v] pairs IH]; intros full_sig Hin Hpos.
  - by apply elem_of_nil in Hin.
  - simpl. destruct (Py.setitem full_sig b v) as [e|fs] eqn:Hset; simpl.
    + unfold Py.setitem in Hset.
      destruct (Py.position (length full_sig) b); [done|]. by injection Hset as <-.
    + apply elem_of_cons in Hin as [[= <- <-] | Hin].
      * unfold Py.setitem in Hset. by rewrite Hpos in Hset.
      * apply IH; [done|]. by rewrite (setitem_length _ _ _ _ Hset).
Qed.

Lemma position_None (n : nat) (i : Z) :
  ¬ (- Z.of_nat n ≤ i < Z.of_nat n) → Py.position n i = None.
Proof. intros Hi. unfold Py.position. repeat case_decide; [lia..|done]. Qed.

Lemma run_analysis_at (pre post : list datum) (d : datum)
    (combined : gmap string Z) :
  _run_analysis pre = inr combined →
  _run_analysis (pre ++ d :: post) =
    (combined' <- fold_datum d combined ;; fold_data post combined').
Proof.
  unfold _run_analysis. intros Hpre. by rewrite fold_data_app, Hpre.
Qed.

(** X10. A datum without any count stops the analysis with
    [StopIteration], whatever its metadata, once the data before it have
    been folded. *)
Theorem run_analysis_empty_counts (pre post : list datum) (d : datum)
    (combined : gmap string Z) :
  _run_analysis pre = inr combined →
  counts d = [] →
  _run_analysis (pre ++ d :: post) = inl Py.StopIteration.
Proof.
  intros Hpre Hc. rewrite (run_analysis_at _ _ _ _ Hpre).
  unfold fold_datum. by rewrite Hc.
Qed.

Lemma run_analysis_empty_counts_witness :
  _run_analysis ([datum_flip_first] ++ Datum [] (mk_metadata [0] [1]) :: [])
  = inl Py.StopIteration.
Proof.
  apply (run_analysis_empty_counts [datum_flip_first] []
           (Datum [] (mk_metadata [0] [1])) {["11"%string := 5]});
    reflexivity.
Defined.

(** X11. A recorded position outside the width of the first key stops the
    analysis with [IndexError]: the position has to lie in
    [-n .. n-1] for [n] the length of the first key of the datum, and only
    positions that are paired with a signature entry are looked at. *)
Theorem run_analysis_position_out_of_range (pre post : list datum) (d : datum)
    (combined : gmap string Z) (key0 : string) (val0 : Z)
    (items : list (string * Z)) (clbits sig : list Z) (bit val : Z) :
  _run_analysis pre = inr combined →
  counts d = (key0, val0) :: items →
  metadata d !! "rm_bits" = Some clbits →
  metadata d !! "rm_sig" = Some sig →
  (bit, val) ∈ zip clbits sig →
  ¬ (- Z.of_nat (String.length key0) ≤ bit < Z.of_nat (String.length key0)) →
  _run_analysis (pre ++ d :: post) = inl Py.IndexError.
Proof.
  intros Hpre Hc Hbits Hsig Hin Hout. rewrite (run_analysis_at _ _ _ _ Hpre).
  unfold fold_datum, Py.dict_getitem. rewrite Hc, Hbits, Hsig. simpl.
  rewrite (fill_sig_out_of_range _ _ bit val Hin); [done|].
  rewrite length_replicate. by apply position_None.
Qed.

Lemma run_analysis_position_out_of_range_witness :
  _run_analysis ([] ++ datum_too_narrow :: []) = inl Py.IndexError.
Proof.
  apply (run_analysis_position_out_of_range [] [] datum_too_narrow ∅
           "0" 1 [] [5] [1] 5 1).
  - reflexivity.
  - reflexivity.
  - reflexivity.
  - reflexivity.
  - apply list_elem_of_here.
  - simpl. lia.
Defined.

Lemma zip_take_take {A B} (l : list A) (k : list B) :
  zip (take (length k) l) (take (length l) k) = zip l k.
Proof.
  revert k. induction l as [|x l IH]; intros [|y k]; simpl; try done.
  by rewrite IH.
Qed.

(** X12. Positions and signature entries are paired one to one and what is
    left over on either side is ignored: a datum whose two lists are cut
    to their common length is analysed exactly like the datum itself. *)
Theorem run_analysis_ignores_surplus (pre post : list datum) (d d' : datum)
    (clbits sig : list Z) :
  metadata d !! "rm_bits" = Some clbits →
  metadata d !! "rm_sig" = Some sig →
  counts d' = counts d →
  metadata d' !! "rm_bits" = Some (take (length sig) clbits) →
  metadata d' !! "rm_sig" = Some (take (length clbits) sig) →
  _run_analysis (pre ++ d' :: post) = _run_analysis (pre ++ d :: post).
Proof.
  intros Hbits Hsig Hc Hbits' Hsig'.
  assert (Heq : swapped d' = swapped d).
  { unfold swapped, Py.dict_getitem.
    rewrite Hc, Hbits, Hsig, Hbits', Hsig'.
    destruct (Py.first_key (counts d)) as [e|first]; simpl; [done|].
    by rewrite zip_take_take. }
  rewrite !run_analysis_swapped_all, !swapped_all_app. simpl.
  by rewrite Heq.
Qed.

Lemma run_analysis_ignores_surplus_witness :
  _run_analysis ([] ++ datum_flip_first :: [])
  = _run_analysis
      ([] ++ Datum [("10"%string, 5)] (mk_metadata [0; 1; 7] [1; 0]) :: []).
Proof.
  apply (run_analysis_ignores_surplus [] []
           (Datum [("10"%string, 5)] (mk_metadata [0; 1; 7] [1; 0]))
           datum_flip_first [0; 1; 7] [1; 0]); reflexivity.
Defined.

End AnalysisErrors.

(** ** The generator: draws and tags *)

Section GeneratorDraws.
Context `{Library}.

Lemma length_integers (n : nat) (rng : bitgen) :
  length (integers n rng).1 = n.
Proof.
  revert rng. induction n as [|n IH]; intros rng; simpl; [done|].
  destruct (next_bit rng) as [b rng1]. specialize (IH rng1).
  destruct (integers n rng1) as [bs rng2]. simpl in *. by rewrite IH.
Qed.

Lemma integers2_rows (rows cols : nat) (rng : bitgen) :
  Forall (λ r, length r = cols) (integers2 rows cols rng).1.
Proof.
  revert rng. induction rows as [|rows IH]; intros rng; simpl; [done|].
  pose proof (length_integers cols rng) as Hr.
  destruct (integers cols rng) as [r rng1]. specialize (IH rng1).
  destruct (integers2 rows cols rng1) as [rs rng2]. simpl in *.
  by constructor.
Qed.

Lemma Forall_zip_with_MkPauli (P Q : list bool → Prop) (z x : list (list bool)) :
  Forall P z → Forall Q x →
  Forall (λ p, P (pauli_z p) ∧ Q (pauli_x p)) (zip_with MkPauli z x).
Proof.
  intros Hz. revert x. induction Hz as [|r z Hr _ IH]; intros x Hx; [done|].
  destruct Hx as [|s x Hs Hx]; simpl; [done|]. constructor; [done|by apply IH].
Qed.

Lemma random_pauli_list_shape (n size : nat) (rng : bitgen) :
  Forall (λ p, length (pauli_z p) = n ∧ length (pauli_x p) = n)
    (random_pauli_list n size rng).1.
Proof.
  unfold random_pauli_list.
  pose proof (integers2_rows size n rng) as Hz.
  destruct (integers2 size n rng) as [z rng1].
  pose proof (integers2_rows size n rng1) as Hx.
  destruct (integers2 size n rng1) as [x rng2]. simpl in *.
  exact (Forall_zip_with_MkPauli (λ r, length r = n) (λ r, length r = n)
           z x Hz Hx).
Qed.

Lemma draws_add (a b : nat) (rng : bitgen) :
  draws (a + b) rng = draws b (draws a rng).
Proof. unfold draws. by rewrite Nat.add_comm, Nat.iter_add. Qed.

Lemma draws_S (n : nat) (rng : bitgen) :
  draws (S n) rng = draws n (next_bit rng).2.
Proof.
  unfold draws. symmetry.
  exact (Nat.iter_swap n bitgen (λ g, (next_bit g).2) rng).
Qed.

Lemma integers_state (n : nat) (rng : bitgen) :
  (integers n rng).2 = draws n rng.
Proof.
  revert rng. induction n as [|n IH]; intros rng; [done|].
  rewrite draws_S. simpl.
  destruct (next_bit rng) as [b rng1]. specialize (IH rng1).
  by destruct (integers n rng1) as [bs rng2].
Qed.

Lemma integers2_state (rows cols : nat) (rng : bitgen) :
  (integers2 rows cols rng).2 = draws (rows * cols) rng.
Proof.
  revert rng. induction rows as [|rows IH]; intros rng; simpl; [done|].
  pose proof (integers_state cols rng) as Hr.
  destruct (integers cols rng) as [r rng1]. specialize (IH rng1).
  destruct (integers2 rows cols rng1) as [rs rng2]. simpl in *.
  by rewrite IH, Hr, draws_add.
Qed.

Lemma random_pauli_list_state (n size : nat) (rng : bitgen) :
  (random_pauli_list n size rng).2 = draws (2 * (size * n)) rng.
Proof.
  unfold random_pauli_list.
  pose proof (integers2_state size n rng) as Hz.
  destruct (integers2 size n rng) as [z rng1].
  pose proof (integers2_state size n rng1) as Hx.
  destruct (integers2 size n rng1) as [x rng2]. simpl in *.
  rewrite Hx, Hz. replace (size * n + (size * n + 0))%nat
    with (size * n + size * n)%nat by lia.
  by rewrite draws_add.
Qed.

(** Every circuit is the loop body on a Pauli with one entry per measured
    qubit. *)
Lemma elem_of_circuits (self : t) (w : world) (circ : QuantumCircuit) :
  circ ∈ (circuits self w).1 →
  ∃ pauli,
    length (pauli_z pauli) = meas_nc self ∧
    length (pauli_x pauli) = meas_nc self ∧
    circ = build self (range 0 (exp_num_qubits self))
             (range 0 (circ_nc self)) (meas_clbits self)
             (default ∅ (circuit_metadata (_circuit self))) pauli.
Proof.
  intros Hin. destruct (circuits_paulis self w) as [rng Heq].
  rewrite Heq in Hin. apply list_elem_of_fmap in Hin as (pauli & -> & Hin).
  pose proof (random_pauli_list_shape (length (_measured_qubits self))
                (samples self) rng) as Hall.
  rewrite Forall_forall in Hall. destruct (Hall _ Hin) as [Hz Hx].
  by exists pauli.
Qed.

End GeneratorDraws.

(** ** The generator: further statements *)

Section GeneratorExtras.

Lemma truthy_x_as_ints `{Library} (pauli : Pauli) :
  Py.truthy <$> x_as_ints pauli = pauli_x pauli.
Proof.
  unfold x_as_ints. rewrite <- list_fmap_compose.
  induction (pauli_x pauli) as [|b bs IH]; [done|].
  rewrite fmap_cons, IH. by destruct b.
Qed.

Lemma foldl_pointwise {A B} (f g : A → B → A) (l : list B) (a : A) :
  (∀ a b, f a b = g a b) → foldl f a l = foldl g a l.
Proof.
  intros Hfg. revert a. induction l as [|b l IH]; intros a; simpl; [done|].
  by rewrite Hfg, IH.
Qed.

(** X13. The analysis undoes what the generator did: for a circuit
    returned by [circuits] and counts a backend can return for it, the
    analysis of the datum of that circuit returns every count under the
    outcome, classical bit 0 first, with the bits of the base circuit as
    they are and the measured bits combined by exclusive-or with the [x]
    part of the very Pauli that [circuits] composed onto the measured
    qubits; the [z] part plays no role. *)
Theorem run_analysis_undoes_applied_pauli `{Library} (self : t) (w : world)
    (circ : QuantumCircuit) (found : list (string * Z)) :
  circ ∈ (circuits self w).1 →
  outcome_of circ found →
  ∃ pauli,
    compose_pauli pauli (_measured_qubits self) ∈ qc_calls circ ∧
    _run_analysis [executed circ found] =
      inr (foldl (λ m kv,
                    accumulate m
                      (untwirl_by_x (circ_nc self) (pauli_x pauli) kv.1) kv.2)
             ∅ found).
Proof.
  intros Hin [Hne Hall].
  destruct (elem_of_circuits self w circ Hin) as (pauli & Hz & Hx & ->).
  assert (Hlen : length (x_as_ints pauli) = meas_nc self).
  { unfold x_as_ints. by rewrite length_fmap. }
  exists pauli. split.
  { simpl. apply list_elem_of_further, list_elem_of_here. }
  rewrite (run_analysis_layout _ (circ_nc self) (x_as_ints pauli)).
  - f_equal. apply foldl_pointwise. intros m kv.
    unfold xor_untwirl, untwirl_by_x. by rewrite truthy_x_as_ints.
  - simpl. rewrite Hlen, lookup_insert_ne by done. apply lookup_insert_eq.
  - simpl. apply lookup_insert_eq.
  - done.
  - simpl. rewrite Hlen. exact Hall.
Qed.

Lemma run_analysis_undoes_applied_pauli_witness :
  ∃ pauli,
    compose_pauli pauli [0; 1] ∈ qc_calls second_circuit_tagged ∧
    _run_analysis [executed second_circuit_tagged [("011"%string, 3)]] =
      inr (foldl (λ m kv,
                    accumulate m (untwirl_by_x 1 (pauli_x pauli) kv.1) kv.2)
             ∅ [("011"%string, 3)]).
Proof.
  apply (run_analysis_undoes_applied_pauli experiment_tagged world0
           second_circuit_tagged [("011"%string, 3)]).
  - vm_compute. apply list_elem_of_further, list_elem_of_here.
  - split; [discriminate|]. apply Forall_singleton. split; [|reflexivity].
    apply Forall_cons. split; [by left|].
    apply Forall_cons. split; [by right|].
    apply Forall_singleton. by right.
Defined.

(** X14. The metadata of the base circuit is carried over and the two
    keys of the experiment are set: every circuit has, under each key
    other than "rm_bits" and "rm_sig", what the base circuit has under it
    (nothing when the base circuit has no metadata); under "rm_bits" it
    has the reserved classical bits and under "rm_sig" one integer per
    entry of the [x] part of the Pauli composed onto the measured qubits,
    1 where the entry is set and 0 where it is not, also when the base
    circuit had entries of its own under these two keys. *)
Theorem circuits_keep_base_metadata `{Library} (self : t) (w : world)
    (circ : QuantumCircuit) (key : string) :
  circ ∈ (circuits self w).1 →
  (key ≠ "rm_bits"%string → key ≠ "rm_sig"%string →
     qc_metadata circ !! key
     = default ∅ (circuit_metadata (_circuit self)) !! key) ∧
  qc_metadata circ !! "rm_bits" = Some (meas_clbits self) ∧
  ∃ pauli,
    compose_pauli pauli (_measured_qubits self) ∈ qc_calls circ ∧
    qc_metadata circ !! "rm_sig"
    = Some ((λ b : bool, if b then 1 else 0) <$> pauli_x pauli).
Proof.
  intros Hin. destruct (elem_of_circuits self w circ Hin)
    as (pauli & Hz & Hx & ->). simpl. split; [|split].
  - intros Hb Hs. by rewrite !lookup_insert_ne by done.
  - rewrite lookup_insert_ne by done. apply lookup_insert_eq.
  - exists pauli. split.
    + apply list_elem_of_further, list_elem_of_here.
    + apply lookup_insert_eq.
Qed.

Lemma circuits_keep_base_metadata_witness :
  qc_metadata second_circuit_tagged !! "shots" = Some [1024] ∧
  qc_metadata second_circuit_tagged !! "rm_bits" = Some [1; 2] ∧
  ∃ pauli,
    compose_pauli pauli [0; 1] ∈ qc_calls second_circuit_tagged ∧
    qc_metadata second_circuit_tagged !! "rm_sig"
    = Some ((λ b : bool, if b then 1 else 0) <$> pauli_x pauli).
Proof.
  destruct (circuits_keep_base_metadata experiment_tagged world0
              second_circuit_tagged "shots") as (Hkeep & Hbits & Hsig).
  - vm_compute. apply list_elem_of_further, list_elem_of_here.
  - split; [|split; [exact Hbits | exact Hsig]].
    rewrite Hkeep by discriminate. reflexivity.
Defined.



(** X16. What [circuits] does to the world depends on the seed only.
    With a [Generator] object as seed the object is advanced by two draws
    per sample and measured qubit (one for [z], one for [x]) and no
    entropy is read; with an integer seed nothing changes; without a seed
    one unit of entropy is read and the caller's generator is left
    alone. *)
Theorem circuits_world `{Library} (self : t) (w : world) :
  (seed self = seed_Generator →
     (circuits self w).2 =
       MkWorld (draws (2 * (samples self * meas_nc self)) (generator w))
         (entropy_used w)) ∧
  (∀ n, seed self = seed_int n → (circuits self w).2 = w) ∧
  (seed self = seed_None →
     (circuits self w).2 = MkWorld (generator w) (S (entropy_used w))).
Proof.
  unfold circuits, meas_nc. split; [|split].
  - intros ->.
    pose proof (random_pauli_list_state (length (_measured_qubits self))
                  (samples self) (generator w)) as Hst.
    unfold samples in *.
    destruct (random_pauli_list _ _ _) as [paulis rng']. simpl in *.
    by rewrite Hst.
  - intros n ->. by destruct (random_pauli_list _ _ _).
  - intros ->. by destruct (random_pauli_list _ _ _).
Qed.

Lemma circuits_world_witness :
  (circuits experiment_shared_generator world0).2
  = MkWorld (draws 12 (generator world0)) (entropy_used world0).
Proof.
  apply (proj1 (circuits_world experiment_shared_generator world0)).
  reflexivity.
Defined.

(** X17. When measured and physical qubits are both left out, all qubits
    of the base circuit are measured, in order, and with the sample count
    [None] the number of circuits is two to the number of measured
    qubits. *)
Theorem circuits_all_qubits_by_default `{Library} (circuit : Circuit)
    (sd : option seed_option) (w : world) :
  _measured_qubits (__init__ circuit None None (Some None) sd)
    = range 0 (num_qubits circuit) ∧
  meas_nc (__init__ circuit None None (Some None) sd) = num_qubits circuit ∧
  length (circuits (__init__ circuit None None (Some None) sd) w).1
    = (2 ^ meas_nc (__init__ circuit None None (Some None) sd))%nat.
Proof.
  assert (Hk : meas_nc (__init__ circuit None None (Some None) sd)
               = num_qubits circuit).
  { unfold meas_nc. simpl. rewrite length_range. lia. }
  split; [done|]. split; [done|].
  rewrite length_circuits, Hk. unfold samples, exp_num_qubits. simpl.
  rewrite length_range. f_equal. lia.
Qed.

End GeneratorExtras.

(** ** From the generator to the analysis *)

Section Pipeline.

Lemma generated_datum_swapped `{Library} (self : t) (w : world)
    (circ : QuantumCircuit) (found : list (string * Z)) :
  circ ∈ (circuits self w).1 → outcome_of circ found →
  ∃ items, swapped (executed circ found) = inr items.
Proof.
  intros Hin [Hne Hall].
  destruct (elem_of_circuits self w circ Hin) as (pauli & Hz & Hx & ->).
  assert (Hlen : length (x_as_ints pauli) = meas_nc self).
  { unfold x_as_ints. by rewrite length_fmap. }
  pose proof (run_analysis_layout
    (executed (build self (range 0 (exp_num_qubits self))
                 (range 0 (circ_nc self)) (meas_clbits self)
                 (default ∅ (circuit_metadata (_circuit self))) pauli) found)
    (circ_nc self) (x_as_ints pauli)) as Hrun.
  rewrite run_analysis_swapped_all in Hrun. simpl in Hrun.
  destruct (swapped _) as [e|items] eqn:Hsw; [|by exists items].
  exfalso. simpl in Hrun. rewrite Hlen in Hrun.
  assert (Hgoal : @inl Py.exn (gmap string Z) e = inl e) by done.
  revert Hgoal. rewrite Hrun at 1; [done| | |done|].
  - rewrite lookup_insert_ne by done. apply lookup_insert_eq.
  - apply lookup_insert_eq.
  - exact Hall.
Qed.

(** X18. What the generator tags, the analysis reads: for data that come
    from running circuits returned by [circuits], each with at least one
    outcome and keys that are bit strings with one character per
    classical bit of its circuit, the analysis raises no exception, and
    the combined counts add up to the counts of the data. *)
Theorem run_analysis_of_generated_data `{Library} (self : t) (w : world)
    (data : list datum) :
  data_of self w data →
  ∃ combined, _run_analysis data = inr combined ∧
              total combined = total_data data.
Proof.
  intros Hdata.
  assert (Hsw : ∃ items, swapped_all data = inr items).
  { induction Hdata as [|d data (circ & found & Hin & Hout & ->) _ IH].
    - by exists [].
    - destruct (generated_datum_swapped self w circ found Hin Hout)
        as [items Hitems].
      destruct IH as [rest Hrest]. exists (items ++ rest). simpl.
      by rewrite Hitems, Hrest. }
  destruct Hsw as [items Hitems].
  exists (histogram items).
  assert (Hrun : _run_analysis data = inr (histogram items)).
  { by rewrite run_analysis_swapped_all, Hitems. }
  split; [done|].
  unfold _run_analysis in Hrun.
  rewrite (total_fold_data _ _ _ Hrun), total_empty. lia.
Qed.

Lemma run_analysis_of_generated_data_witness :
  ∃ combined,
    _run_analysis [executed first_circuit_seed_7
                     [("010"%string, 4); ("111"%string, 6)]]
    = inr combined ∧
    total combined
    = total_data [executed first_circuit_seed_7
                    [("010"%string, 4); ("111"%string, 6)]].
Proof.
  apply (run_analysis_of_generated_data experiment_seed_7 world0).
  apply Forall_singleton.
  exists first_circuit_seed_7, [("010"%string, 4); ("111"%string, 6)].
  split; [vm_compute; apply list_elem_of_here|]. split; [|reflexivity].
  split; [discriminate|].
  apply Forall_cons. split.
  { split; [|reflexivity].
    apply Forall_cons. split; [by left|].
    apply Forall_cons. split; [by right|].
    apply Forall_singleton. by left. }
  apply Forall_singleton. split; [|reflexivity].
  apply Forall_cons. split; [by right|].
  apply Forall_cons. split; [by right|].
  apply Forall_singleton. by right.
Defined.

End Pipeline.

(** ** GHZExperiment: statements *)

Section GhzExtras.

(** X19. The GHZ circuit is written on the qubits [0 .. n-1] for [n] the
    number of physical qubits, whatever their labels: its calls are [h]
    on qubit 0, then one [cx] from qubit 0 to every other qubit, each
    exactly once and in increasing order, then [measure_all] exactly when
    the option [measure] is set. *)
Theorem ghz_circuit_calls (self : GHZExperiment.t) (circ : GHZExperiment.circuit) :
  circ ∈ GHZExperiment.circuits self →
  GHZExperiment.ghz_num_qubits circ
    = length (GHZExperiment.physical_qubits self) ∧
  head (GHZExperiment.ghz_calls circ) = Some (GHZExperiment.h 0) ∧
  NoDup (GHZExperiment.ghz_calls circ) ∧
  (∀ c t', GHZExperiment.cx c t' ∈ GHZExperiment.ghz_calls circ ↔
           c = 0 ∧ 1 ≤ t' < Z.of_nat (GHZExperiment.ghz_num_qubits circ)) ∧
  (∀ q, GHZExperiment.h q ∈ GHZExperiment.ghz_calls circ ↔ q = 0) ∧
  (GHZExperiment.measure_all ∈ GHZExperiment.ghz_calls circ ↔
   GHZExperiment.measure self = true) ∧
  (GHZExperiment.measure self = true →
   last (GHZExperiment.ghz_calls circ) = Some GHZExperiment.measure_all).
Proof.
  unfold GHZExperiment.circuits. intros Hin.
  apply list_elem_of_singleton in Hin as ->. simpl.
  set (n := length (GHZExperiment.physical_qubits self)).
  split; [done|]. split; [done|]. split; [|split; [|split; [|split]]].
  - apply NoDup_cons. split.
    + intros Hin. apply elem_of_app in Hin as [Hin|Hin].
      * apply list_elem_of_fmap in Hin as (t' & Heq & _). discriminate.
      * destruct (GHZExperiment.measure self); [|by apply elem_of_nil in Hin].
        apply list_elem_of_singleton in Hin. discriminate.
    + apply NoDup_app. split; [|split].
      * assert (Inj eq eq (GHZExperiment.cx 0)) by (by intros ?? [=]).
        apply (NoDup_fmap_2 _). unfold range.
        apply (NoDup_fmap_2 _), NoDup_seq.
      * intros g Hg Hg'. apply list_elem_of_fmap in Hg as (t' & -> & _).
        destruct (GHZExperiment.measure self); [|by apply elem_of_nil in Hg'].
        apply list_elem_of_singleton in Hg'. discriminate.
      * destruct (GHZExperiment.measure self);
          [apply NoDup_singleton | apply NoDup_nil_2].
  - intros c t'. rewrite elem_of_cons, elem_of_app, list_elem_of_fmap. split.
    + intros [Heq | [(t0 & [= -> ->] & Hin) | Hin]].
      * discriminate.
      * apply elem_of_range in Hin. lia.
      * destruct (GHZExperiment.measure self); [|by apply elem_of_nil in Hin].
        apply list_elem_of_singleton in Hin. discriminate.
    + intros [-> Ht]. right. left. exists t'. split; [done|].
      apply elem_of_range. lia.
  - intros q. rewrite elem_of_cons, elem_of_app, list_elem_of_fmap. split.
    + intros [[= ->] | [(t0 & Heq & _) | Hin]]; [done|discriminate|].
      destruct (GHZExperiment.measure self); [|by apply elem_of_nil in Hin].
      apply list_elem_of_singleton in Hin. discriminate.
    + intros ->. by left.
  - rewrite elem_of_cons, elem_of_app, list_elem_of_fmap. split.
    + intros [Heq | [(t0 & Heq & _) | Hin]]; [discriminate..|].
      destruct (GHZExperiment.measure self); [done|by apply elem_of_nil in Hin].
    + intros ->. right. right. apply list_elem_of_here.
  - intros ->. rewrite app_comm_cons. apply last_snoc.
Qed.

Lemma ghz_circuit_calls_witness :
  NoDup [GHZExperiment.h 0; GHZExperiment.cx 0 1; GHZExperiment.cx 0 2] ∧
  last [GHZExperiment.h 0; GHZExperiment.cx 0 1; GHZExperiment.cx 0 2]
    = Some (GHZExperiment.cx 0 2).
Proof.
  pose proof (ghz_circuit_calls
    (GHZExperiment.__init__ [1; 0; 2] (Some false))
    (GHZExperiment.MkGhzCircuit 3
       [GHZExperiment.h 0; GHZExperiment.cx 0 1; GHZExperiment.cx 0 2])
    (list_elem_of_here _ _)) as (_ & _ & Hnd & _).
  split; [exact Hnd | reflexivity].
Defined.

End GhzExtras.
